(** * ssdeep: context-triggered piecewise hashing (ssdeep.go)

    A shallow embedding of the Go package [ssdeep] and the properties of
    its digest computation.

    Conventions of the embedding.
    - [uint32] values are [Z] in [0, 2^32); every arithmetic step of the
      source is followed by [wrap32].  [int64] values are [Z] in
      [-2^63, 2^63); every arithmetic step is followed by [wrap64]
      (Go integer arithmetic wraps silently).  [%] on [int64] is
      truncated remainder ([Z.rem]), [/] is truncated division ([Z.quot]);
      the source divides by 2 only, which cannot leave the range.
    - [byte] is [Byte.byte]; [uint32(c)] is [u32 c].
    - Go strings are [string]; [len] is [String.length].
    - A method with a pointer receiver that mutates the state is a function
      returning the new state.
    - The Go [error] interface is [option error]; [None] is [nil]. *)

From Stdlib Require Import ZArith Lia List Bool.
From Stdlib.Strings Require Import String Ascii Byte.
From Stdlib Require Import DecimalString DecimalPos DecimalZ Decimal.
From stdpp Require Import base list.

Local Open Scope Z_scope.

(** ** Machine integers *)

Definition two_32 : Z := Eval cbv in 2 ^ 32.
Definition two_63 : Z := Eval cbv in 2 ^ 63.
Definition two_64 : Z := Eval cbv in 2 ^ 64.

Definition wrap32 (x : Z) : Z := x mod two_32.

Definition wrap64 (x : Z) : Z := (x + two_63) mod two_64 - two_63.

Definition is_int64 (x : Z) : Prop := - two_63 <= x < two_63.

Definition u32 (c : byte) : Z := Z.of_N (Byte.to_N c).

(** ** Constants *)

Definition rollingWindow : Z := 7.
Definition blockMin : Z := 3.
Definition spamSumLength : Z := 64.
Definition minFileSize : Z := 4096.
Definition hashPrime : Z := 0x01000193.
Definition hashInit : Z := 0x28021967.
Definition b64String : string :=
  "ABCDEFGHIJKLMNOPQRSTUVWXYZabcdefghijklmnopqrstuvwxyz0123456789+/"%string.

Definition b64 : list ascii := list_ascii_of_string b64String.

(** ** Errors *)

(** [EOF] is [io.EOF]; [ErrIO code] stands for any other error a source
    can report. *)
Inductive error : Type :=
| EOF
| ErrSmallInput
| ErrSmallBlock
| ErrIO (code : nat).

(** ** State *)

Module rollingState.
Record t : Type := mk {
  window : list byte;
  h1 : Z;
  h2 : Z;
  h3 : Z;
  n : Z
}.
End rollingState.

Definition rollSum (rs : rollingState.t) : Z :=
  wrap32 (wrap32 (rollingState.h1 rs + rollingState.h2 rs) + rollingState.h3 rs).

Module ssdeepState.
Record t : Type := mk {
  rollingState : rollingState.t;
  blockSize : Z;
  hashString1 : string;
  hashString2 : string;
  blockHash1 : Z;
  blockHash2 : Z
}.
End ssdeepState.

(** [make([]byte, rollingWindow)] *)
Definition make_window : list byte := replicate (Z.to_nat rollingWindow) x00.

Definition newSsdeepState : ssdeepState.t :=
  ssdeepState.mk (rollingState.mk make_window 0 0 0 0) 0 EmptyString EmptyString hashInit hashInit.

Definition newRollingState (state : ssdeepState.t) : ssdeepState.t :=
  ssdeepState.mk
    (rollingState.mk make_window 0 0 0 0)
    (ssdeepState.blockSize state)
    (ssdeepState.hashString1 state)
    (ssdeepState.hashString2 state)
    (ssdeepState.blockHash1 state)
    (ssdeepState.blockHash2 state).

(** ** Hashes *)

Definition sumHash (c : byte) (h : Z) : Z :=
  Z.lxor (wrap32 (h * hashPrime)) (u32 c).

(** [rs.window[rs.n]]: Go panics when the index is out of range; the index
    is below the window's length in every state the package builds
    (lemma [roll_inv_rollHash]), so the default is never used. *)
Definition window_at (w : list byte) (i : Z) : byte :=
  default x00 (w !! Z.to_nat i).

Definition rollHash (state : ssdeepState.t) (c : byte) : ssdeepState.t :=
  let rs := ssdeepState.rollingState state in
  let h2 := wrap32 (rollingState.h2 rs - rollingState.h1 rs) in
  let h2 := wrap32 (h2 + wrap32 (rollingWindow * u32 c)) in
  let h1 := wrap32 (rollingState.h1 rs + u32 c) in
  let h1 := wrap32 (h1 - u32 (window_at (rollingState.window rs) (rollingState.n rs))) in
  let window := <[Z.to_nat (rollingState.n rs) := c]> (rollingState.window rs) in
  let n := wrap32 (rollingState.n rs + 1) in
  let n := if n =? rollingWindow then 0 else n in
  let h3 := wrap32 (Z.shiftl (rollingState.h3 rs) 5) in
  let h3 := Z.lxor h3 (u32 c) in
  ssdeepState.mk
    (rollingState.mk window h1 h2 h3 n)
    (ssdeepState.blockSize state)
    (ssdeepState.hashString1 state)
    (ssdeepState.hashString2 state)
    (ssdeepState.blockHash1 state)
    (ssdeepState.blockHash2 state).

(** ** Block size *)

(** The [for] loop of [getBlockSize].  The product [blockSize*spamSumLength]
    and the doubling are [int64] operations and wrap; the loop is not
    structurally bounded, hence the fuel: [None] means the loop is still
    running after [fuel] tests of its condition. *)
Fixpoint getBlockSize_loop (fuel : nat) (blockSize n : Z) : option Z :=
  match fuel with
  | O => None
  | S fuel' =>
      if wrap64 (blockSize * spamSumLength) <? n
      then getBlockSize_loop fuel' (wrap64 (blockSize * 2)) n
      else Some blockSize
  end.

Definition set_blockSize (state : ssdeepState.t) (bs : Z) : ssdeepState.t :=
  ssdeepState.mk
    (ssdeepState.rollingState state)
    bs
    (ssdeepState.hashString1 state)
    (ssdeepState.hashString2 state)
    (ssdeepState.blockHash1 state)
    (ssdeepState.blockHash2 state).

Definition getBlockSize (fuel : nat) (state : ssdeepState.t) (n : Z)
  : option ssdeepState.t :=
  match getBlockSize_loop fuel blockMin n with
  | Some blockSize => Some (set_blockSize state blockSize)
  | None => None
  end.

(** ** One byte *)

Definition set_blockHash1 (state : ssdeepState.t) (h : Z) : ssdeepState.t :=
  ssdeepState.mk
    (ssdeepState.rollingState state)
    (ssdeepState.blockSize state)
    (ssdeepState.hashString1 state)
    (ssdeepState.hashString2 state)
    h
    (ssdeepState.blockHash2 state).

Definition set_blockHash2 (state : ssdeepState.t) (h : Z) : ssdeepState.t :=
  ssdeepState.mk
    (ssdeepState.rollingState state)
    (ssdeepState.blockSize state)
    (ssdeepState.hashString1 state)
    (ssdeepState.hashString2 state)
    (ssdeepState.blockHash1 state)
    h.

Definition set_hashString1 (state : ssdeepState.t) (s : string) : ssdeepState.t :=
  ssdeepState.mk
    (ssdeepState.rollingState state)
    (ssdeepState.blockSize state)
    s
    (ssdeepState.hashString2 state)
    (ssdeepState.blockHash1 state)
    (ssdeepState.blockHash2 state).

Definition set_hashString2 (state : ssdeepState.t) (s : string) : ssdeepState.t :=
  ssdeepState.mk
    (ssdeepState.rollingState state)
    (ssdeepState.blockSize state)
    (ssdeepState.hashString1 state)
    s
    (ssdeepState.blockHash1 state)
    (ssdeepState.blockHash2 state).

(** [len(s)] as an [int] *)
Definition len (s : string) : Z := Z.of_nat (String.length s).

(** [string(b64[h%64])]: the index is below 64, the length of [b64]. *)
Definition b64_char (h : Z) : string :=
  String (default Ascii.zero (b64 !! Z.to_nat (h mod 64))) EmptyString.

(** [rh%state.blockSize] panics in Go when the block size is 0 (integer
    divide by zero); [Z.rem] returns [rh] there, so at block size 0, and
    only there, this function has a value where the code has none.
    [FuzzyReader] runs no pass with a block size below 1 (lemma
    [FuzzyReader_pass_blockSize] and theorem [C8_block_sizes]); a state
    built by [newSsdeepState] has block size 0 until [getBlockSize] has
    set it. *)
Definition processByte (state : ssdeepState.t) (b : byte) : ssdeepState.t :=
  let state := set_blockHash1 state (sumHash b (ssdeepState.blockHash1 state)) in
  let state := set_blockHash2 state (sumHash b (ssdeepState.blockHash2 state)) in
  let state := rollHash state b in
  let rh := rollSum (ssdeepState.rollingState state) in
  let blockSize := ssdeepState.blockSize state in
  if Z.rem rh blockSize =? wrap64 (blockSize - 1) then
    let state :=
      if len (ssdeepState.hashString1 state) <? spamSumLength - 1 then
        let state :=
          set_hashString1 state
            (ssdeepState.hashString1 state
               ++ b64_char (ssdeepState.blockHash1 state))%string in
        set_blockHash1 state hashInit
      else state in
    if Z.rem rh (wrap64 (blockSize * 2)) =? wrap64 (wrap64 (blockSize * 2) - 1) then
      if len (ssdeepState.hashString2 state) <? spamSumLength / 2 - 1 then
        let state :=
          set_hashString2 state
            (ssdeepState.hashString2 state
               ++ b64_char (ssdeepState.blockHash2 state))%string in
        set_blockHash2 state hashInit
      else state
    else state
  else state.

(** ** The byte source *)

(** What a [bufio.Reader] over the source delivers to a loop of [ReadByte]
    calls: a run of bytes closed by the first error ([io.EOF] at the end of
    the data, anything else on a failure).  A source that never reports an
    error has no value of this type: [process] would not return on it. *)
Inductive bufioReader : Type :=
| ReadOk (b : byte) (rest : bufioReader)
| ReadErr (err : error).

(** [r.ReadByte()]: the byte, the error, the reader afterwards. *)
Definition ReadByte (r : bufioReader) : byte * option error * bufioReader :=
  match r with
  | ReadOk b rest => (b, None, rest)
  | ReadErr err => (x00, Some err, r)
  end.

(** A [Reader] ([io.Seeker] and [io.Reader]) as [FuzzyReader] uses it:
    [f k] is the [bufio.Reader] obtained by the [k]-th execution of
    [f.Seek(0, 0); r := bufio.NewReader(f)].  The result of [Seek] is
    dropped by the source, so a source may deliver different bytes on
    different passes. *)
Definition Reader : Type := nat -> bufioReader.

Fixpoint bufio_of (data : list byte) (err : error) : bufioReader :=
  match data with
  | [] => ReadErr err
  | b :: data' => ReadOk b (bufio_of data' err)
  end.

(** [bytes.NewReader(buffer)]: every rewind delivers the whole buffer, then
    [io.EOF]. *)
Definition bytes_NewReader (buffer : list byte) : Reader :=
  fun _ => bufio_of buffer EOF.

(** The bytes a [bufio.Reader] delivers and the error that ends them. *)
Fixpoint delivered (r : bufioReader) : list byte :=
  match r with
  | ReadOk b rest => b :: delivered rest
  | ReadErr _ => []
  end.

Fixpoint closing_error (r : bufioReader) : error :=
  match r with
  | ReadOk _ rest => closing_error rest
  | ReadErr err => err
  end.

(** ** One pass *)

(** The loop [for err == nil] of [process]: the error that ends it is
    dropped, whatever it is. *)
Fixpoint process_loop (state : ssdeepState.t) (r : bufioReader) : ssdeepState.t :=
  match r with
  | ReadOk b rest => process_loop (processByte state b) rest
  | ReadErr _ => state
  end.

Definition process (state : ssdeepState.t) (r : bufioReader) : ssdeepState.t :=
  process_loop (newRollingState state) r.

(** ** The digest *)

(** [fmt.Sprintf("%d", x)] *)
Definition format_int (x : Z) : string := NilZero.string_of_int (Z.to_int x).

(** [fmt.Sprintf("%d:%s:%s", blockSize, s1, s2)] *)
Definition Sprintf_digest (blockSize : Z) (s1 s2 : string) : string :=
  (format_int blockSize ++ ":" ++ s1 ++ ":" ++ s2)%string.

(** How one iteration of the [for] loop of [FuzzyReader] ends. *)
Inductive iteration : Type :=
| Continue (state : ssdeepState.t)
| Break (state : ssdeepState.t)
| Return (digest : string) (err : error).

(** The statements of the block-size reduction branch. *)
Definition shrink (state : ssdeepState.t) : ssdeepState.t :=
  let state := set_blockSize state (Z.quot (ssdeepState.blockSize state) 2) in
  let state := set_blockHash1 state hashInit in
  let state := set_blockHash2 state hashInit in
  let state := set_hashString1 state EmptyString in
  set_hashString2 state EmptyString.

(** The statements of the branch that ends the loop. *)
Definition finalize (state : ssdeepState.t) : ssdeepState.t :=
  let rh := rollSum (ssdeepState.rollingState state) in
  if negb (rh =? 0) then
    let state :=
      set_hashString1 state
        (ssdeepState.hashString1 state
           ++ b64_char (ssdeepState.blockHash1 state))%string in
    set_hashString2 state
      (ssdeepState.hashString2 state
         ++ b64_char (ssdeepState.blockHash2 state))%string
  else state.

(** The body of the [for] loop, at its [k]-th execution. *)
Definition FuzzyReader_body (f : Reader) (k : nat) (state : ssdeepState.t)
  : iteration :=
  let r := f k in
  let state := process state r in
  if ssdeepState.blockSize state <? blockMin then
    Return EmptyString ErrSmallBlock
  else if len (ssdeepState.hashString1 state) <? spamSumLength / 2 then
    Continue (shrink state)
  else
    Break (finalize state).

(** The [for] loop from its [k]-th execution on; [None]: still running
    after [fuel] iterations. *)
Fixpoint FuzzyReader_loop (fuel : nat) (f : Reader) (k : nat)
  (state : ssdeepState.t) : option (ssdeepState.t + string * error) :=
  match fuel with
  | O => None
  | S fuel' =>
      match FuzzyReader_body f k state with
      | Continue state' => FuzzyReader_loop fuel' f (S k) state'
      | Break state' => Some (inl state')
      | Return digest err => Some (inr (digest, err))
      end
  end.

(** [FuzzyReader f size]; [None]: one of its two loops is still running
    after [fuel] iterations. *)
Definition FuzzyReader (fuel : nat) (f : Reader) (size : Z)
  : option (string * option error) :=
  if size <? minFileSize then Some (EmptyString, Some ErrSmallInput)
  else
    match getBlockSize fuel newSsdeepState size with
    | None => None
    | Some state =>
        match FuzzyReader_loop fuel f 0 state with
        | None => None
        | Some (inr (digest, err)) => Some (digest, Some err)
        | Some (inl state) =>
            Some (Sprintf_digest
                    (ssdeepState.blockSize state)
                    (ssdeepState.hashString1 state)
                    (ssdeepState.hashString2 state), None)
        end
    end.

(** [FuzzyBytes buffer] *)
Definition FuzzyBytes (fuel : nat) (buffer : list byte)
  : option (string * option error) :=
  let n := Z.of_nat (length buffer) in
  let br := bytes_NewReader buffer in
  match FuzzyReader fuel br n with
  | None => None
  | Some (result, Some err) => Some (EmptyString, Some err)
  | Some (result, None) => Some (result, None)
  end.

(** ** Files *)

(** [io.SeekStart], [io.SeekCurrent] *)
Inductive whence : Type := SeekStart | SeekCurrent.

(** The calls [FuzzyFile] makes on its file, in order. *)
Inductive fileCall : Type :=
| CallSeek (offset : Z) (w : whence)
| CallStat
| CallFuzzyReader (size : Z).

(** An [*os.File] as [FuzzyFile] uses it: what [f.Seek(0, io.SeekCurrent)]
    returns, what [f.Stat()] returns (the size, or an error), and the file
    as a [Reader].  The results of the two other [Seek] calls are dropped by
    the source. *)
Module osFile.
Record t : Type := mk {
  Seek_current : Z * option error;
  Stat : Z * option error;
  reader : Reader
}.
End osFile.

(** [FuzzyFile f]: the result, and the calls made on the file. *)
Definition FuzzyFile (fuel : nat) (f : osFile.t)
  : option (string * option error * list fileCall) :=
  let calls := [CallSeek 0 SeekCurrent] in
  match osFile.Seek_current f with
  | (_, Some err) => Some (EmptyString, Some err, calls)
  | (currentPosition, None) =>
      let calls := calls ++ [CallSeek 0 SeekStart; CallStat] in
      match osFile.Stat f with
      | (_, Some err) => Some (EmptyString, Some err, calls)
      | (size, None) =>
          let calls := calls ++ [CallFuzzyReader size] in
          match FuzzyReader fuel (osFile.reader f) size with
          | None => None
          | Some (_, Some err) => Some (EmptyString, Some err, calls)
          | Some (result, None) =>
              Some (result, None,
                    calls ++ [CallSeek currentPosition SeekStart])
          end
      end
  end.

(** ** A [bytes.Reader] between calls *)

(** The state of a [bytes.Reader]: the slice [s] it reads and its read
    index [i].  The index is what a call of [FuzzyReader] leaves changed
    behind it, so it is what a later call on the same reader starts from. *)
Module bytesReader.
Record t : Type := mk {
  s : list byte;
  i : Z
}.
End bytesReader.

(** [r.Seek(offset, whence)] of a [bytes.Reader]: a negative position is an
    error and leaves the index alone, any other position becomes the
    index. *)
Definition bytesReader_Seek (r : bytesReader.t) (offset : Z) (w : whence)
  : bytesReader.t * (Z * option error) :=
  let abs :=
    match w with
    | SeekStart => offset
    | SeekCurrent => wrap64 (bytesReader.i r + offset)
    end in
  if abs <? 0 then (r, (0, Some (ErrIO 0)))
  else (bytesReader.mk (bytesReader.s r) abs, (abs, None)).

(** [bufio.NewReader(r)] read with [ReadByte] up to its first error, as
    [process] does: the bytes from the index on, then [io.EOF]; the index
    is left at the end of the slice (where it was, if it was beyond). *)
Definition bytesReader_bufio (r : bytesReader.t) : bufioReader * bytesReader.t :=
  (bufio_of (drop (Z.to_nat (bytesReader.i r)) (bytesReader.s r)) EOF,
   bytesReader.mk (bytesReader.s r)
     (Z.max (bytesReader.i r) (Z.of_nat (length (bytesReader.s r))))).

(** The body of the [for] loop of [FuzzyReader] on a [bytes.Reader] in
    state [f]: [f.Seek(0, 0)] with its result dropped, then
    [bufio.NewReader(f)] and the rest of the body; the reader's state
    afterwards is returned with the outcome. *)
Definition FuzzyReader_body_on (f : bytesReader.t) (state : ssdeepState.t)
  : iteration * bytesReader.t :=
  let '(f, _) := bytesReader_Seek f 0 SeekStart in
  let '(r, f) := bytesReader_bufio f in
  (FuzzyReader_body (fun _ => r) 0 state, f).

Fixpoint FuzzyReader_loop_on (fuel : nat) (f : bytesReader.t)
  (state : ssdeepState.t)
  : option ((ssdeepState.t + string * error) * bytesReader.t) :=
  match fuel with
  | O => None
  | S fuel' =>
      match FuzzyReader_body_on f state with
      | (Continue state', f') => FuzzyReader_loop_on fuel' f' state'
      | (Break state', f') => Some (inl state', f')
      | (Return digest err, f') => Some (inr (digest, err), f')
      end
  end.

(** [FuzzyReader f size] on a [bytes.Reader] in state [f]: the result, and
    the state the reader is left in. *)
Definition FuzzyReader_on (fuel : nat) (f : bytesReader.t) (size : Z)
  : option ((string * option error) * bytesReader.t) :=
  if size <? minFileSize then Some ((EmptyString, Some ErrSmallInput), f)
  else
    match getBlockSize fuel newSsdeepState size with
    | None => None
    | Some state =>
        match FuzzyReader_loop_on fuel f state with
        | None => None
        | Some (inr (digest, err), f') => Some ((digest, Some err), f')
        | Some (inl state, f') =>
            Some ((Sprintf_digest
                     (ssdeepState.blockSize state)
                     (ssdeepState.hashString1 state)
                     (ssdeepState.hashString2 state), None), f')
        end
    end.

(** ** The passes of a run *)

(** The state with which the [i]-th further iteration starts, when the
    loop is at its [k]-th iteration in [state]; [None] when the loop has
    ended before. *)
Fixpoint pass_state (f : Reader) (k : nat) (state : ssdeepState.t) (i : nat)
  : option ssdeepState.t :=
  match i with
  | O => Some state
  | S i' =>
      match FuzzyReader_body f k state with
      | Continue state' => pass_state f (S k) state' i'
      | _ => None
      end
  end.

(** The state with which pass [i] of [FuzzyReader f size] starts. *)
Definition FuzzyReader_pass (fuel : nat) (f : Reader) (size : Z) (i : nat)
  : option ssdeepState.t :=
  if size <? minFileSize then None
  else
    match getBlockSize fuel newSsdeepState size with
    | None => None
    | Some state => pass_state f 0 state i
    end.

(** ** Sample inputs *)

(** [count] zero-valued bytes. *)
Definition zeros (count : nat) : list byte := replicate count x00.

(** The bytes 0, 1, ..., 255, 0, 1, ... *)
Definition ramp (count : nat) : list byte :=
  map (fun i => default x00 (Byte.of_nat (i mod 256)%nat)) (seq 0 count).

(** The digest of [ramp 4096]. *)
Definition ramp_digest : string :=
  "96:zf33Pf3ff33Pf33Pf33Pf3ff33Pf33Pf33Pf3ff33Pf33Pf33Pf3ff33Pf33Pf3T:znnnnnnnnnnnnnnnnnnnnnnnnnnnnnnb"%string.

(** A source over [data] whose reads end with a failure instead of
    [io.EOF]. *)
Definition failing_Reader (data : list byte) (code : nat) : Reader :=
  fun _ => bufio_of data (ErrIO code).

(** ** Predicates of the properties *)

(** The sum of the bytes held in the window. *)
Definition window_sum (w : list byte) : Z :=
  foldr (fun b acc => u32 b + acc) 0 w.

(** The rolling state is well formed: seven slots, the cursor on one of
    them, and [h1] the sum of the slots modulo 2^32. *)
Definition roll_inv (rs : rollingState.t) : Prop :=
  length (rollingState.window rs) = Z.to_nat rollingWindow
  /\ 0 <= rollingState.n rs < rollingWindow
  /\ rollingState.h1 rs = wrap32 (window_sum (rollingState.window rs)).

(** The rolling state while only zero bytes have been pushed. *)
Definition zero_roll (rs : rollingState.t) : Prop :=
  rollingState.window rs = make_window
  /\ rollingState.h1 rs = 0 /\ rollingState.h2 rs = 0 /\ rollingState.h3 rs = 0
  /\ 0 <= rollingState.n rs < rollingWindow.

Definition pow2 (k : nat) : Z := 2 ^ Z.of_nat k.

(** [b] is the minimum block size times a power of two. *)
Definition block_form (b : Z) : Prop :=
  exists k : nat, b = blockMin * pow2 k.

(** The largest declared size for which no product of [getBlockSize]
    leaves the [int64] range: 3 * 2^61. *)
Definition maxBlockInput : Z := Eval cbv in 3 * 2 ^ 61.

(** [math.MaxInt64] *)
Definition MaxInt64 : Z := Eval cbv in 2 ^ 63 - 1.

Definition string_forall (p : ascii -> bool) (s : string) : bool :=
  forallb p (list_ascii_of_string s).

(** The characters [0-9]. *)
Definition is_digit (c : ascii) : bool :=
  let x := nat_of_ascii c in
  ((48 <=? x) && (x <=? 57))%nat.

(** The characters [A-Za-z0-9+/]. *)
Definition is_b64 (c : ascii) : bool :=
  let x := nat_of_ascii c in
  (((65 <=? x) && (x <=? 90)) || ((97 <=? x) && (x <=? 122))
   || ((48 <=? x) && (x <=? 57)) || (x =? 43) || (x =? 47))%nat.

(** Both hash strings are within their caps, the second is no longer than
    the first, and both are written in the alphabet. *)
Definition strings_ok (cap1 cap2 : nat) (state : ssdeepState.t) : Prop :=
  (String.length (ssdeepState.hashString1 state) <= cap1)%nat
  /\ (String.length (ssdeepState.hashString2 state) <= cap2)%nat
  /\ (String.length (ssdeepState.hashString2 state)
      <= String.length (ssdeepState.hashString1 state))%nat
  /\ string_forall is_b64 (ssdeepState.hashString1 state) = true
  /\ string_forall is_b64 (ssdeepState.hashString2 state) = true.

(** [strconv.Atoi] on the block-size field of a digest. *)
Definition parse_int (s : string) : option Z :=
  option_map Z.of_int (NilZero.int_of_string s).

(** The number of halvings that take a block size below the minimum. *)
Fixpoint halvings_below_min (fuel : nat) (b : Z) : nat :=
  match fuel with
  | O => O
  | S fuel' =>
      if b <? blockMin then O else S (halvings_below_min fuel' (Z.quot b 2))
  end.


(** ** Closed forms of the rolling state *)

(** The window read from the cursor on: the slot the next push overwrites
    comes first. *)
Definition recent_of (rs : rollingState.t) : list byte :=
  drop (Z.to_nat (rollingState.n rs)) (rollingState.window rs)
  ++ take (Z.to_nat (rollingState.n rs)) (rollingState.window rs).

(** The last seven bytes of the input, with zero bytes before its start,
    oldest first. *)
Definition last_seven (data : list byte) : list byte :=
  drop (length data) (make_window ++ data).

(** The sum of the bytes of [l] weighted [k], [k+1], ... from the left. *)
Fixpoint weighted_from (k : Z) (l : list byte) : Z :=
  match l with
  | [] => 0
  | b :: l' => k * u32 b + weighted_from (k + 1) l'
  end.

Definition weighted_sum (l : list byte) : Z := weighted_from 1 l.

(** One update of [h3]. *)
Definition h3_step (h : Z) (c : byte) : Z :=
  Z.lxor (wrap32 (Z.shiftl h 5)) (u32 c).

Definition h3_of (l : list byte) : Z := fold_left h3_step l 0.

(** The rolling sum as a function of seven bytes. *)
Definition rollSum_of (w : list byte) : Z :=
  wrap32 (wrap32 (wrap32 (window_sum w) + wrap32 (weighted_sum w)) + h3_of w).

(** ** Triggers and blocks *)

(** The test of the first trigger, on a state whose rolling state has just
    been updated. *)
Definition coarse_trigger (state : ssdeepState.t) : bool :=
  Z.rem (rollSum (ssdeepState.rollingState state)) (ssdeepState.blockSize state)
  =? wrap64 (ssdeepState.blockSize state - 1).

(** The test of the second trigger, nested in the first. *)
Definition fine_trigger (state : ssdeepState.t) : bool :=
  coarse_trigger state
  && (Z.rem (rollSum (ssdeepState.rollingState state))
        (wrap64 (ssdeepState.blockSize state * 2))
      =? wrap64 (wrap64 (ssdeepState.blockSize state * 2) - 1)).

(** The number of bytes of [data] on which a trigger fires. *)
Fixpoint count_triggers (trigger : ssdeepState.t -> bool)
  (state : ssdeepState.t) (data : list byte) : nat :=
  match data with
  | [] => O
  | b :: data' =>
      let state' := rollHash state b in
      ((if trigger state' then 1 else 0) + count_triggers trigger state' data')%nat
  end.

(** The block hash of the bytes of [l], from the value [h]. *)
Definition hash_block (h : Z) (l : list byte) : Z :=
  fold_left (fun h c => sumHash c h) l h.

(** Two scans of the same bytes, [stateB] at twice the block size of
    [stateA]: the second string of [stateA] follows the first string of
    [stateB] up to its cap of 31 characters. *)
Definition doubled (stateA stateB : ssdeepState.t) : Prop :=
  ssdeepState.rollingState stateA = ssdeepState.rollingState stateB
  /\ ssdeepState.blockSize stateB = 2 * ssdeepState.blockSize stateA
  /\ 1 <= ssdeepState.blockSize stateA
  /\ 2 * ssdeepState.blockSize stateA < two_63
  /\ (((String.length (ssdeepState.hashString1 stateB) < 31)%nat
       /\ ssdeepState.hashString2 stateA = ssdeepState.hashString1 stateB
       /\ ssdeepState.blockHash2 stateA = ssdeepState.blockHash1 stateB)
      \/ ((31 <= String.length (ssdeepState.hashString1 stateB))%nat
          /\ String.length (ssdeepState.hashString2 stateA) = 31%nat
          /\ ssdeepState.hashString2 stateA
             = substring 0 31 (ssdeepState.hashString1 stateB))).

(** * Properties *)

(** ** Machine integers *)

Lemma wrap32_range x : 0 <= wrap32 x < two_32.
Proof. unfold wrap32. apply Z.mod_pos_bound. reflexivity. Qed.

Lemma wrap64_small x : is_int64 x -> wrap64 x = x.
Proof.
  unfold is_int64, wrap64, two_63, two_64. intros Hx.
  rewrite Z.mod_small by lia. lia.
Qed.

Lemma wrap64_mul_l a b : wrap64 (wrap64 a * b) = wrap64 (a * b).
Proof.
  unfold wrap64. f_equal.
  replace (((a + two_63) mod two_64 - two_63) * b + two_63)
    with ((a + two_63) mod two_64 * b + (two_63 - two_63 * b)) by ring.
  rewrite <- Zplus_mod_idemp_l, Zmult_mod_idemp_l, Zplus_mod_idemp_l.
  f_equal. ring.
Qed.

Lemma wrap32_unfold x : wrap32 x = x - two_32 * (x / two_32).
Proof. unfold wrap32. apply Z.mod_eq. discriminate. Qed.

Lemma wrap32_eqm a b : (a - b) mod two_32 = 0 -> wrap32 a = wrap32 b.
Proof.
  unfold wrap32. intros H.
  replace a with (b + (a - b)) by ring.
  rewrite <- Zplus_mod_idemp_r, H. f_equal. ring.
Qed.

(** ** The rolling window *)

Lemma window_sum_insert (w : list byte) (i : nat) (c : byte) :
  (i < length w)%nat ->
  window_sum (<[i := c]> w) = window_sum w - u32 (default x00 (w !! i)) + u32 c.
Proof.
  revert i. induction w as [|b w IH]; intros i Hi; simpl in *.
  - lia.
  - destruct i as [|i]; simpl.
    + lia.
    + rewrite IH by lia. lia.
Qed.

Lemma roll_inv_new state :
  roll_inv (ssdeepState.rollingState (newRollingState state)).
Proof. repeat split; reflexivity || discriminate. Qed.

Lemma roll_inv_rollHash state c :
  roll_inv (ssdeepState.rollingState state) ->
  roll_inv (ssdeepState.rollingState (rollHash state c)).
Proof.
  intros (Hlen & Hn & Hh1). unfold roll_inv, rollHash; simpl.
  unfold rollingWindow in *.
  split; [|split].
  - rewrite length_insert. exact Hlen.
  - assert (Hw : wrap32 (rollingState.n (ssdeepState.rollingState state) + 1)
                 = rollingState.n (ssdeepState.rollingState state) + 1).
    { unfold wrap32, two_32. apply Z.mod_small. lia. }
    rewrite Hw.
    destruct (Z.eqb_spec (rollingState.n (ssdeepState.rollingState state) + 1) 7); lia.
  - rewrite window_sum_insert by lia.
    unfold window_at. rewrite Hh1.
    set (s := window_sum _). set (c' := u32 c). set (o := u32 _).
    apply wrap32_eqm.
    rewrite (wrap32_unfold (wrap32 s + c')), (wrap32_unfold s).
    match goal with
    | |- ?e mod _ = 0 =>
        replace e with ((- ((s - two_32 * (s / two_32) + c') / two_32)
                         - s / two_32) * two_32) by ring
    end.
    apply Z_mod_mult.
Qed.

Lemma roll_inv_pushes state (data : list byte) :
  roll_inv (ssdeepState.rollingState state) ->
  roll_inv (ssdeepState.rollingState (fold_left rollHash data state)).
Proof.
  revert state. induction data as [|c data IH]; intros state H; simpl.
  - exact H.
  - apply IH, roll_inv_rollHash, H.
Qed.

(** ** Strings *)

Lemma length_append (s1 s2 : string) :
  String.length (s1 ++ s2) = (String.length s1 + String.length s2)%nat.
Proof. induction s1 as [|c s1 IH]; simpl; [reflexivity | now rewrite IH]. Qed.

Lemma string_forall_append p (s1 s2 : string) :
  string_forall p (s1 ++ s2) = string_forall p s1 && string_forall p s2.
Proof.
  unfold string_forall.
  induction s1 as [|c s1 IH]; simpl; [reflexivity|].
  rewrite IH. now rewrite andb_assoc.
Qed.

Lemma b64_char_length h : String.length (b64_char h) = 1%nat.
Proof. reflexivity. Qed.

Lemma b64_entries (i : nat) :
  (i < 64)%nat -> is_b64 (default Ascii.zero (b64 !! i)) = true.
Proof.
  intros Hi.
  do 64 (destruct i as [|i]; [reflexivity|]).
  lia.
Qed.

Lemma b64_char_alphabet h : string_forall is_b64 (b64_char h) = true.
Proof.
  unfold b64_char, string_forall; simpl.
  rewrite b64_entries; [reflexivity|].
  pose proof (Z.mod_pos_bound h 64 eq_refl). lia.
Qed.

(** ** One byte *)

Lemma rollHash_frame state c :
  ssdeepState.blockSize (rollHash state c) = ssdeepState.blockSize state
  /\ ssdeepState.hashString1 (rollHash state c) = ssdeepState.hashString1 state
  /\ ssdeepState.hashString2 (rollHash state c) = ssdeepState.hashString2 state
  /\ ssdeepState.blockHash1 (rollHash state c) = ssdeepState.blockHash1 state
  /\ ssdeepState.blockHash2 (rollHash state c) = ssdeepState.blockHash2 state.
Proof. repeat split. Qed.

Lemma processByte_blockSize state b :
  ssdeepState.blockSize (processByte state b) = ssdeepState.blockSize state.
Proof.
  unfold processByte.
  repeat match goal with |- context [if ?c then _ else _] => destruct c end;
    reflexivity.
Qed.

Lemma processByte_rollingState state b :
  ssdeepState.rollingState (processByte state b)
  = ssdeepState.rollingState (rollHash state b).
Proof.
  unfold processByte.
  repeat match goal with |- context [if ?c then _ else _] => destruct c end;
    reflexivity.
Qed.

Lemma processByte_strings_ok state b :
  strings_ok 63 31 state -> strings_ok 63 31 (processByte state b).
Proof.
  intros (H1 & H2 & H21 & Ha1 & Ha2).
  unfold processByte, strings_ok, len, spamSumLength.
  cbv zeta.
  match goal with |- context [Z.rem ?a ?b =? ?c] => destruct (Z.rem a b =? c) end;
    [|simpl; auto].
  simpl ssdeepState.hashString1. simpl ssdeepState.hashString2.
  destruct (Z.ltb_spec (Z.of_nat (String.length (ssdeepState.hashString1 state)))
              (64 - 1)) as [L1|L1];
    simpl ssdeepState.blockSize; simpl ssdeepState.hashString1;
    simpl ssdeepState.hashString2;
    (match goal with
     | |- context [Z.rem ?a ?b =? ?c] => destruct (Z.rem a b =? c)
     end;
     [ destruct (Z.ltb_spec
                   (Z.of_nat (String.length (ssdeepState.hashString2 state)))
                   (64 / 2 - 1)) as [L2|L2] | ]);
    simpl; rewrite ?length_append, ?string_forall_append, ?b64_char_length,
             ?b64_char_alphabet, ?Ha1, ?Ha2;
    change (64 / 2 - 1) with 31 in *;
    repeat split; auto; lia.
Qed.

(** ** One pass *)

Lemma process_loop_ReadByte state r :
  process_loop state r =
  match ReadByte r with
  | (b, None, rest) => process_loop (processByte state b) rest
  | (_, Some _, _) => state
  end.
Proof. destruct r; reflexivity. Qed.

Lemma process_loop_delivered state r :
  process_loop state r = fold_left processByte (delivered r) state.
Proof.
  revert state. induction r as [b rest IH | err]; intros state; simpl.
  - apply IH.
  - reflexivity.
Qed.

Lemma delivered_bufio_of data err : delivered (bufio_of data err) = data.
Proof. induction data as [|b data IH]; simpl; [reflexivity | now rewrite IH]. Qed.

Lemma scan_blockSize (data : list byte) state :
  ssdeepState.blockSize (fold_left processByte data state)
  = ssdeepState.blockSize state.
Proof.
  revert state. induction data as [|b data IH]; intros state; simpl.
  - reflexivity.
  - rewrite IH. apply processByte_blockSize.
Qed.

Lemma scan_strings_ok (data : list byte) state :
  strings_ok 63 31 state -> strings_ok 63 31 (fold_left processByte data state).
Proof.
  revert state. induction data as [|b data IH]; intros state H; simpl.
  - exact H.
  - apply IH, processByte_strings_ok, H.
Qed.

Lemma scan_roll_inv (data : list byte) state :
  roll_inv (ssdeepState.rollingState state) ->
  roll_inv (ssdeepState.rollingState (fold_left processByte data state)).
Proof.
  revert state. induction data as [|b data IH]; intros state H; simpl.
  - exact H.
  - apply IH. rewrite processByte_rollingState. apply roll_inv_rollHash, H.
Qed.

Lemma process_blockSize state r :
  ssdeepState.blockSize (process state r) = ssdeepState.blockSize state.
Proof.
  unfold process. rewrite process_loop_delivered, scan_blockSize. reflexivity.
Qed.

Lemma process_strings_ok state r :
  strings_ok 63 31 state -> strings_ok 63 31 (process state r).
Proof.
  intros H. unfold process. rewrite process_loop_delivered.
  apply scan_strings_ok. exact H.
Qed.

Lemma process_ext state r1 r2 :
  delivered r1 = delivered r2 -> process state r1 = process state r2.
Proof.
  intros H. unfold process. rewrite !process_loop_delivered, H. reflexivity.
Qed.

(** ** Block size selection *)

Lemma pow2_S k : pow2 (S k) = 2 * pow2 k.
Proof. unfold pow2. rewrite Nat2Z.inj_succ, Z.pow_succ_r by lia. reflexivity. Qed.

Lemma pow2_pos k : 0 < pow2 k.
Proof. unfold pow2. apply Z.pow_pos_nonneg; lia. Qed.

Lemma pow2_mono j k : (j <= k)%nat -> pow2 j <= pow2 k.
Proof. intros H. unfold pow2. apply Z.pow_le_mono_r; lia. Qed.

Lemma pow2_add j k : pow2 (j + k) = pow2 j * pow2 k.
Proof. unfold pow2. rewrite Nat2Z.inj_add, Z.pow_add_r by lia. reflexivity. Qed.

Lemma getBlockSize_loop_mono fuel fuel' blockSize n b :
  getBlockSize_loop fuel blockSize n = Some b ->
  (fuel <= fuel')%nat ->
  getBlockSize_loop fuel' blockSize n = Some b.
Proof.
  revert fuel' blockSize.
  induction fuel as [|fuel IH]; intros fuel' blockSize H Hle; simpl in H.
  - discriminate.
  - destruct fuel' as [|fuel']; [lia|]. simpl.
    destruct (wrap64 (blockSize * spamSumLength) <? n).
    + apply IH; [exact H | lia].
    + exact H.
Qed.

(** From a candidate [3 * 2^j] that all smaller candidates led to, the loop
    returns the smallest candidate whose 64-fold is not below [n], as long
    as [n <= 3 * 2^61]. *)
Lemma getBlockSize_loop_from fuel j n :
  n <= maxBlockInput ->
  (forall i, (i < j)%nat -> blockMin * pow2 i * spamSumLength < n) ->
  (56 - j < fuel)%nat ->
  exists k : nat,
    (j <= k <= 55)%nat
    /\ getBlockSize_loop fuel (blockMin * pow2 j) n = Some (blockMin * pow2 k)
    /\ n <= blockMin * pow2 k * spamSumLength
    /\ (forall i, (i < k)%nat -> blockMin * pow2 i * spamSumLength < n).
Proof.
  unfold maxBlockInput, blockMin, spamSumLength.
  revert j. induction fuel as [|fuel IH]; intros j Hn Hsmall Hfuel; [lia|].
  assert (Hj : (j <= 55)%nat).
  { destruct j as [|j]; [lia|].
    destruct (Nat.le_gt_cases (S j) 55) as [?|Hgt]; [assumption|].
    pose proof (Hsmall j (Nat.lt_succ_diag_r j)) as Hlt.
    pose proof (pow2_mono 55 j ltac:(lia)) as Hm.
    change (pow2 55) with 36028797018963968 in Hm. lia. }
  pose proof (pow2_mono j 55 Hj) as Hm.
  pose proof (pow2_pos j) as Hp.
  change (pow2 55) with 36028797018963968 in Hm.
  simpl. unfold spamSumLength.
  rewrite (wrap64_small (3 * pow2 j * 64))
    by (unfold is_int64, two_63; lia).
  destruct (Z.ltb_spec (3 * pow2 j * 64) n) as [Hlt|Hge].
  - assert (Hj' : (j <= 54)%nat).
    { destruct (Nat.le_gt_cases j 54) as [?|Hgt]; [assumption|].
      pose proof (pow2_mono 55 j ltac:(lia)) as Hm'.
      change (pow2 55) with 36028797018963968 in Hm'. lia. }
    rewrite (wrap64_small (3 * pow2 j * 2))
      by (unfold is_int64, two_63; lia).
    replace (3 * pow2 j * 2) with (3 * pow2 (S j)) by (rewrite pow2_S; ring).
    destruct (IH (S j)) as (k & Hk & Hrun & Hup & Hlow).
    + exact Hn.
    + intros i Hi. destruct (Nat.eq_dec i j) as [->|Hne].
      * exact Hlt.
      * apply Hsmall. lia.
    + lia.
    + exists k. repeat split; try lia; assumption.
  - exists j. repeat split; try lia; assumption.
Qed.

Lemma getBlockSize_loop_in_range n :
  n <= maxBlockInput ->
  exists k : nat,
    (k <= 55)%nat
    /\ (forall fuel, (56 < fuel)%nat ->
        getBlockSize_loop fuel blockMin n = Some (blockMin * pow2 k))
    /\ n <= blockMin * pow2 k * spamSumLength
    /\ (forall i, (i < k)%nat -> blockMin * pow2 i * spamSumLength < n).
Proof.
  intros Hn.
  destruct (getBlockSize_loop_from 57 0 n Hn) as (k & Hk & Hrun & Hup & Hlow);
    [intros i Hi; lia | lia |].
  exists k. repeat split; try lia; try assumption.
  intros fuel Hfuel.
  apply (getBlockSize_loop_mono 57); [|lia].
  change (blockMin * pow2 0) with blockMin in Hrun. exact Hrun.
Qed.

(** Beyond [3 * 2^61] the product wraps to a value below [n] at every
    candidate, and the candidate itself wraps to 0: the loop never ends. *)
Lemma wrap64_candidate_below j n :
  maxBlockInput < n -> wrap64 (blockMin * pow2 j * spamSumLength) < n.
Proof.
  unfold maxBlockInput, blockMin, spamSumLength. intros Hn.
  destruct (Nat.le_gt_cases j 55) as [Hj|Hj].
  - pose proof (pow2_mono j 55 Hj) as Hm. pose proof (pow2_pos j) as Hp.
    change (pow2 55) with 36028797018963968 in Hm.
    rewrite wrap64_small by (unfold is_int64, two_63; lia). lia.
  - destruct (Nat.eq_dec j 56%nat) as [->|H56];
      [change (wrap64 (3 * pow2 56 * 64)) with (-4611686018427387904); lia|].
    destruct (Nat.eq_dec j 57%nat) as [->|H57];
      [change (wrap64 (3 * pow2 57 * 64)) with (-9223372036854775808); lia|].
    replace j with (58 + (j - 58))%nat by lia.
    rewrite pow2_add. set (q := pow2 (j - 58)).
    unfold wrap64.
    replace (3 * (pow2 58 * q) * 64 + two_63) with (two_63 + (3 * q) * two_64)
      by (change (pow2 58) with 288230376151711744; unfold two_63, two_64; ring).
    rewrite Z_mod_plus_full.
    change (two_63 mod two_64 - two_63) with 0. lia.
Qed.

Lemma getBlockSize_loop_diverges fuel j n :
  maxBlockInput < n ->
  getBlockSize_loop fuel (wrap64 (blockMin * pow2 j)) n = None.
Proof.
  intros Hn. revert j. induction fuel as [|fuel IH]; intros j; simpl.
  - reflexivity.
  - rewrite wrap64_mul_l.
    destruct (Z.ltb_spec (wrap64 (blockMin * pow2 j * spamSumLength)) n) as [_|Hge].
    + rewrite wrap64_mul_l.
      replace (blockMin * pow2 j * 2) with (blockMin * pow2 (S j))
        by (rewrite pow2_S; ring).
      apply IH.
    + pose proof (wrap64_candidate_below j n Hn). lia.
Qed.

Lemma getBlockSize_diverges fuel state n :
  maxBlockInput < n -> getBlockSize fuel state n = None.
Proof.
  intros Hn. unfold getBlockSize.
  change blockMin with (wrap64 (blockMin * pow2 0)).
  rewrite getBlockSize_loop_diverges by exact Hn. reflexivity.
Qed.

(** ** The loop of [FuzzyReader] *)

Lemma finalize_blockSize state :
  ssdeepState.blockSize (finalize state) = ssdeepState.blockSize state.
Proof. unfold finalize. destruct (negb _); reflexivity. Qed.

Lemma finalize_strings_ok state :
  strings_ok 63 31 state -> strings_ok 64 32 (finalize state).
Proof.
  intros (H1 & H2 & H21 & Ha1 & Ha2). unfold finalize, strings_ok.
  destruct (negb _); simpl;
    rewrite ?length_append, ?string_forall_append, ?b64_char_length,
      ?b64_char_alphabet, ?Ha1, ?Ha2;
    repeat split; auto; lia.
Qed.

Lemma shrink_strings_ok state : strings_ok 63 31 (shrink state).
Proof. unfold strings_ok; simpl. repeat split; auto; lia. Qed.

Lemma shrink_blockSize state :
  ssdeepState.blockSize (shrink state) = Z.quot (ssdeepState.blockSize state) 2.
Proof. reflexivity. Qed.

(** What an iteration does to the block size and the strings. *)
Lemma body_Continue f k state state' :
  FuzzyReader_body f k state = Continue state' ->
  blockMin <= ssdeepState.blockSize state
  /\ ssdeepState.blockSize state' = Z.quot (ssdeepState.blockSize state) 2
  /\ len (ssdeepState.hashString1 (process state (f k))) < spamSumLength / 2
  /\ strings_ok 63 31 state'.
Proof.
  unfold FuzzyReader_body. rewrite process_blockSize.
  destruct (Z.ltb_spec (ssdeepState.blockSize state) blockMin) as [|Hb];
    [discriminate|].
  destruct (Z.ltb_spec (len (ssdeepState.hashString1 (process state (f k))))
              (spamSumLength / 2)) as [Hl|]; [|discriminate].
  intros [= <-]. rewrite shrink_blockSize, process_blockSize.
  repeat split; try assumption; apply shrink_strings_ok.
Qed.

Lemma body_Break f k state state' :
  strings_ok 63 31 state ->
  FuzzyReader_body f k state = Break state' ->
  blockMin <= ssdeepState.blockSize state
  /\ ssdeepState.blockSize state' = ssdeepState.blockSize state
  /\ state' = finalize (process state (f k))
  /\ strings_ok 64 32 state'.
Proof.
  intros Hok. unfold FuzzyReader_body. rewrite process_blockSize.
  destruct (Z.ltb_spec (ssdeepState.blockSize state) blockMin) as [|Hb];
    [discriminate|].
  destruct (Z.ltb_spec (len (ssdeepState.hashString1 (process state (f k))))
              (spamSumLength / 2)) as [|Hl]; [discriminate|].
  intros [= <-]. rewrite finalize_blockSize, process_blockSize.
  repeat split; try assumption.
  all: apply finalize_strings_ok, process_strings_ok, Hok.
Qed.

Lemma body_Return f k state digest err :
  FuzzyReader_body f k state = Return digest err ->
  ssdeepState.blockSize state < blockMin
  /\ digest = EmptyString /\ err = ErrSmallBlock.
Proof.
  unfold FuzzyReader_body. rewrite process_blockSize.
  destruct (Z.ltb_spec (ssdeepState.blockSize state) blockMin) as [Hb|].
  - intros [= <- <-]. auto.
  - destruct (_ <? _); discriminate.
Qed.

Lemma body_small f k state :
  ssdeepState.blockSize state < blockMin ->
  FuzzyReader_body f k state = Return EmptyString ErrSmallBlock.
Proof.
  intros Hb. unfold FuzzyReader_body. rewrite process_blockSize.
  destruct (Z.ltb_spec (ssdeepState.blockSize state) blockMin); [reflexivity|lia].
Qed.

Lemma body_ext f1 f2 k state :
  delivered (f1 k) = delivered (f2 k) ->
  FuzzyReader_body f1 k state = FuzzyReader_body f2 k state.
Proof.
  intros H. unfold FuzzyReader_body. rewrite (process_ext state _ _ H).
  reflexivity.
Qed.

Lemma FuzzyReader_loop_mono fuel fuel' f k state res :
  FuzzyReader_loop fuel f k state = Some res ->
  (fuel <= fuel')%nat ->
  FuzzyReader_loop fuel' f k state = Some res.
Proof.
  revert fuel' k state.
  induction fuel as [|fuel IH]; intros fuel' k state H Hle; simpl in H.
  - discriminate.
  - destruct fuel' as [|fuel']; [lia|]. simpl.
    destruct (FuzzyReader_body f k state).
    + apply IH; [exact H | lia].
    + exact H.
    + exact H.
Qed.

Lemma FuzzyReader_loop_ext fuel f1 f2 k state :
  (forall i, delivered (f1 i) = delivered (f2 i)) ->
  FuzzyReader_loop fuel f1 k state = FuzzyReader_loop fuel f2 k state.
Proof.
  intros H. revert k state.
  induction fuel as [|fuel IH]; intros k state; simpl.
  - reflexivity.
  - rewrite (body_ext f1 f2 k state (H k)).
    destruct (FuzzyReader_body f2 k state); auto.
Qed.

Lemma quot_candidate k : Z.quot (blockMin * pow2 (S k)) 2 = blockMin * pow2 k.
Proof.
  rewrite pow2_S.
  replace (blockMin * (2 * pow2 k)) with (blockMin * pow2 k * 2) by ring.
  apply Z.quot_mul. discriminate.
Qed.

Lemma pass_state_small f j state i :
  ssdeepState.blockSize state < blockMin ->
  pass_state f j state (S i) = None.
Proof. intros Hb. simpl. rewrite body_small by exact Hb. reflexivity. Qed.

(** Pass [i] runs with the initial block size halved [i] times; after the
    pass at the minimum one more pass runs, with block size 1. *)
Lemma pass_state_blockSize i : forall f j state0 state (k : nat),
  ssdeepState.blockSize state0 = blockMin * pow2 k ->
  pass_state f j state0 i = Some state ->
  ((i <= k)%nat /\ ssdeepState.blockSize state = blockMin * pow2 (k - i))
  \/ (i = S k /\ ssdeepState.blockSize state = 1).
Proof.
  induction i as [|i IH]; intros f j state0 state k Hbs Hrun; simpl in Hrun.
  - injection Hrun as <-. left. rewrite Nat.sub_0_r. split; [lia | exact Hbs].
  - destruct (FuzzyReader_body f j state0) as [state'| |] eqn:Hbody;
      try discriminate.
    apply body_Continue in Hbody as (_ & Hq & _).
    destruct k as [|k].
    + rewrite Hbs in Hq. change (Z.quot (blockMin * pow2 0) 2) with 1 in Hq.
      destruct i as [|i].
      * injection Hrun as <-. right. auto.
      * rewrite pass_state_small in Hrun by (rewrite Hq; reflexivity).
        discriminate.
    + rewrite Hbs, quot_candidate in Hq.
      destruct (IH _ _ _ _ _ Hq Hrun) as [[Hi Hb] | [Hi Hb]].
      * left. split; [lia|]. exact Hb.
      * right. split; [lia|]. exact Hb.
Qed.

Lemma pass_state_strings_ok i : forall f j state0 state,
  strings_ok 63 31 state0 ->
  pass_state f j state0 i = Some state ->
  strings_ok 63 31 state.
Proof.
  induction i as [|i IH]; intros f j state0 state Hok Hrun; simpl in Hrun.
  - injection Hrun as <-. exact Hok.
  - destruct (FuzzyReader_body f j state0) as [state'| |] eqn:Hbody;
      try discriminate.
    apply body_Continue in Hbody as (_ & _ & _ & Hok').
    exact (IH _ _ _ _ Hok' Hrun).
Qed.

Lemma FuzzyReader_loop_small fuel f j state :
  ssdeepState.blockSize state < blockMin ->
  FuzzyReader_loop (S fuel) f j state = Some (inr (EmptyString, ErrSmallBlock)).
Proof. intros Hb. simpl. rewrite body_small by exact Hb. reflexivity. Qed.

(** From block size [3 * 2^k] the loop ends within [k + 2] iterations. *)
Lemma FuzzyReader_loop_terminates (k : nat) : forall f j state fuel,
  ssdeepState.blockSize state = blockMin * pow2 k ->
  (k + 2 <= fuel)%nat ->
  (exists res, FuzzyReader_loop fuel f j state = Some res)
  /\ pass_state f j state (k + 2) = None.
Proof.
  induction k as [|k IH]; intros f j state fuel Hbs Hfuel;
    (destruct fuel as [|fuel]; [lia|]); simpl;
    destruct (FuzzyReader_body f j state) as [state'| |] eqn:Hbody;
    try (split; [eexists; reflexivity | reflexivity]);
    apply body_Continue in Hbody as (_ & Hq & _).
  - rewrite Hbs in Hq. change (Z.quot (blockMin * pow2 0) 2) with 1 in Hq.
    destruct fuel as [|fuel]; [lia|].
    rewrite FuzzyReader_loop_small by (rewrite Hq; reflexivity).
    rewrite body_small by (rewrite Hq; reflexivity).
    split; [eexists; reflexivity | reflexivity].
  - rewrite Hbs, quot_candidate in Hq.
    apply IH; [exact Hq | lia].
Qed.

Lemma FuzzyReader_loop_error fuel : forall f j state digest err,
  FuzzyReader_loop fuel f j state = Some (inr (digest, err)) ->
  digest = EmptyString /\ err = ErrSmallBlock.
Proof.
  induction fuel as [|fuel IH]; intros f j state digest err H; simpl in H.
  - discriminate.
  - destruct (FuzzyReader_body f j state) as [state'| |] eqn:Hbody.
    + exact (IH _ _ _ _ _ H).
    + discriminate.
    + injection H as <- <-. apply body_Return in Hbody as (_ & ? & ?). auto.
Qed.

(** The state a successful loop hands to the formatting. *)
Lemma FuzzyReader_loop_final fuel : forall f j state state' (k : nat),
  ssdeepState.blockSize state = blockMin * pow2 k ->
  strings_ok 63 31 state ->
  FuzzyReader_loop fuel f j state = Some (inl state') ->
  strings_ok 64 32 state'
  /\ exists k' : nat,
      (k' <= k)%nat /\ ssdeepState.blockSize state' = blockMin * pow2 k'.
Proof.
  induction fuel as [|fuel IH]; intros f j state state' k Hbs Hok H; simpl in H.
  - discriminate.
  - destruct (FuzzyReader_body f j state) as [state1|state1|] eqn:Hbody.
    + apply body_Continue in Hbody as (_ & Hq & _ & Hok1).
      destruct k as [|k].
      * rewrite Hbs in Hq. change (Z.quot (blockMin * pow2 0) 2) with 1 in Hq.
        destruct fuel as [|fuel]; [discriminate|].
        rewrite FuzzyReader_loop_small in H by (rewrite Hq; reflexivity).
        discriminate.
      * rewrite Hbs, quot_candidate in Hq.
        destruct (IH _ _ _ _ _ Hq Hok1 H) as (Hfin & k' & Hk' & Hb').
        split; [exact Hfin|]. exists k'. split; [lia | exact Hb'].
    + injection H as <-.
      apply (body_Break _ _ _ _ Hok) in Hbody as (_ & Hb & _ & Hfin).
      split; [exact Hfin|]. exists k. split; [lia|]. now rewrite Hb.
    + discriminate.
Qed.

(** When no pass at a block size of at least the minimum brings the first
    string to 32 characters, the loop ends with [ErrSmallBlock]. *)
Lemma FuzzyReader_loop_short fuel : forall f j state res,
  FuzzyReader_loop fuel f j state = Some res ->
  (forall i state_i,
      pass_state f j state i = Some state_i ->
      blockMin <= ssdeepState.blockSize state_i ->
      len (ssdeepState.hashString1 (process state_i (f (j + i)%nat)))
      < spamSumLength / 2) ->
  res = inr (EmptyString, ErrSmallBlock).
Proof.
  induction fuel as [|fuel IH]; intros f j state res H Hshort; simpl in H.
  - discriminate.
  - destruct (FuzzyReader_body f j state) as [state1|state1|] eqn:Hbody.
    + apply (IH _ _ _ _ H). intros i state_i Hi Hb.
      replace (S j + i)%nat with (j + S i)%nat by lia.
      apply Hshort; [|exact Hb]. simpl. rewrite Hbody. exact Hi.
    + exfalso. revert Hbody. unfold FuzzyReader_body.
      rewrite process_blockSize.
      destruct (Z.ltb_spec (ssdeepState.blockSize state) blockMin) as [|Hb];
        [discriminate|].
      pose proof (Hshort 0%nat state eq_refl Hb) as Hs.
      rewrite Nat.add_0_r in Hs.
      destruct (Z.ltb_spec
                  (len (ssdeepState.hashString1 (process state (f j))))
                  (spamSumLength / 2)); [discriminate | lia].
    + injection H as <-. apply body_Return in Hbody as (_ & -> & ->).
      reflexivity.
Qed.

(** ** The formatted digest *)

Lemma string_of_uint_digits d :
  string_forall is_digit (NilEmpty.string_of_uint d) = true.
Proof. induction d; simpl; try reflexivity; exact IHd. Qed.

Lemma format_int_positive x :
  0 < x ->
  string_forall is_digit (format_int x) = true
  /\ format_int x <> EmptyString
  /\ parse_int (format_int x) = Some x.
Proof.
  intros Hx. destruct x as [|p|p]; try lia.
  unfold format_int, parse_int. simpl Z.to_int.
  pose proof (DecimalPos.Unsigned.to_uint_nonnil p) as Hnil.
  split; [|split].
  - simpl. destruct (Pos.to_uint p) eqn:E; try contradiction;
      apply (string_of_uint_digits (_ u)).
  - simpl. destruct (Pos.to_uint p) eqn:E; try contradiction; discriminate.
  - rewrite NilZero.isi.
    + simpl. f_equal. exact (DecimalZ.of_to (Z.pos p)).
    + intros [= E]. contradiction.
    + discriminate.
Qed.

(** ** [FuzzyReader] as a whole *)

Lemma getBlockSize_loop_form fuel n b :
  getBlockSize_loop fuel blockMin n = Some b ->
  n <= maxBlockInput
  /\ exists k : nat,
      (k <= 55)%nat /\ b = blockMin * pow2 k
      /\ n <= blockMin * pow2 k * spamSumLength
      /\ (forall i, (i < k)%nat -> blockMin * pow2 i * spamSumLength < n).
Proof.
  intros H.
  destruct (Z.le_gt_cases n maxBlockInput) as [Hn|Hn].
  - split; [exact Hn|].
    destruct (getBlockSize_loop_in_range n Hn) as (k & Hk & Hrun & Hup & Hlow).
    exists k. repeat split; try assumption.
    pose proof (getBlockSize_loop_mono _ (fuel + 57) _ _ _ H ltac:(lia)) as H1.
    rewrite Hrun in H1 by lia. now injection H1.
  - change blockMin with (wrap64 (blockMin * pow2 0)) in H.
    rewrite getBlockSize_loop_diverges in H by exact Hn. discriminate.
Qed.

Lemma getBlockSize_new fuel size state :
  getBlockSize fuel newSsdeepState size = Some state ->
  getBlockSize_loop fuel blockMin size = Some (ssdeepState.blockSize state)
  /\ strings_ok 63 31 state.
Proof.
  unfold getBlockSize.
  destruct (getBlockSize_loop fuel blockMin size) as [b|]; [|discriminate].
  intros [= <-]. split; [reflexivity|].
  unfold strings_ok; simpl. repeat split; auto; lia.
Qed.

Lemma FuzzyReader_mono fuel fuel' f size res :
  FuzzyReader fuel f size = Some res ->
  (fuel <= fuel')%nat ->
  FuzzyReader fuel' f size = Some res.
Proof.
  unfold FuzzyReader, getBlockSize. intros H Hle.
  destruct (size <? minFileSize); [exact H|].
  destruct (getBlockSize_loop fuel blockMin size) as [b|] eqn:Hb;
    [|discriminate].
  rewrite (getBlockSize_loop_mono _ _ _ _ _ Hb Hle).
  destruct (FuzzyReader_loop fuel f 0 (set_blockSize newSsdeepState b))
    as [r|] eqn:Hr; [|discriminate].
  rewrite (FuzzyReader_loop_mono _ _ _ _ _ _ Hr Hle). exact H.
Qed.

Lemma FuzzyReader_ext fuel f1 f2 size :
  (forall i, delivered (f1 i) = delivered (f2 i)) ->
  FuzzyReader fuel f1 size = FuzzyReader fuel f2 size.
Proof.
  intros H. unfold FuzzyReader.
  destruct (size <? minFileSize); [reflexivity|].
  destruct (getBlockSize fuel newSsdeepState size) as [state|]; [|reflexivity].
  rewrite (FuzzyReader_loop_ext fuel f1 f2 0 state H). reflexivity.
Qed.

(** The errors [FuzzyReader] returns are its own two. *)
Lemma FuzzyReader_errors fuel f size digest err :
  FuzzyReader fuel f size = Some (digest, Some err) ->
  digest = EmptyString
  /\ ((err = ErrSmallInput /\ size < minFileSize)
      \/ (err = ErrSmallBlock /\ minFileSize <= size)).
Proof.
  unfold FuzzyReader.
  destruct (Z.ltb_spec size minFileSize) as [Hs|Hs].
  - intros [= <- <-]. auto.
  - destruct (getBlockSize fuel newSsdeepState size) as [state|];
      [|discriminate].
    destruct (FuzzyReader_loop fuel f 0 state) as [[state'|[d e]]|] eqn:Hl;
      try discriminate.
    intros [= <- <-]. apply FuzzyReader_loop_error in Hl as (-> & ->). auto.
Qed.

(** A digest is the formatting of a state with a block size [3 * 2^k] and
    finished strings. *)
Lemma FuzzyReader_digest fuel f size digest :
  FuzzyReader fuel f size = Some (digest, None) ->
  minFileSize <= size
  /\ exists state (k : nat),
      digest = Sprintf_digest (ssdeepState.blockSize state)
                 (ssdeepState.hashString1 state)
                 (ssdeepState.hashString2 state)
      /\ ssdeepState.blockSize state = blockMin * pow2 k
      /\ strings_ok 64 32 state.
Proof.
  unfold FuzzyReader.
  destruct (Z.ltb_spec size minFileSize) as [Hs|Hs]; [discriminate|].
  destruct (getBlockSize fuel newSsdeepState size) as [state|] eqn:Hg;
    [|discriminate].
  apply getBlockSize_new in Hg as (Hb & Hok).
  apply getBlockSize_loop_form in Hb as (_ & k & _ & Hk & _).
  destruct (FuzzyReader_loop fuel f 0 state) as [[state'|[d e]]|] eqn:Hl;
    try discriminate.
  intros [= <-]. split; [exact Hs|].
  destruct (FuzzyReader_loop_final _ _ _ _ _ _ Hk Hok Hl) as (Hfin & k' & _ & Hk').
  exists state', k'. auto.
Qed.

(** ** Zero-valued input *)

Lemma body_short f j state :
  blockMin <= ssdeepState.blockSize state ->
  len (ssdeepState.hashString1 (process state (f j))) < spamSumLength / 2 ->
  FuzzyReader_body f j state = Continue (shrink (process state (f j))).
Proof.
  intros Hb Hs. unfold FuzzyReader_body. rewrite process_blockSize.
  destruct (Z.ltb_spec (ssdeepState.blockSize state) blockMin); [lia|].
  destruct (Z.ltb_spec (len (ssdeepState.hashString1 (process state (f j))))
              (spamSumLength / 2)); [reflexivity | lia].
Qed.

Lemma pass_state_empty i : forall f j state0 state,
  ssdeepState.hashString1 state0 = EmptyString ->
  pass_state f j state0 i = Some state ->
  ssdeepState.hashString1 state = EmptyString.
Proof.
  induction i as [|i IH]; intros f j state0 state He Hrun; simpl in Hrun.
  - injection Hrun as <-. exact He.
  - destruct (FuzzyReader_body f j state0) as [state'| |] eqn:Hbody;
      try discriminate.
    refine (IH _ _ _ _ _ Hrun).
    revert Hbody. unfold FuzzyReader_body.
    repeat match goal with |- context [if ?c then _ else _] => destruct c end;
      try discriminate.
    intros [= <-]. reflexivity.
Qed.

(** As long as every pass at a block size of at least the minimum leaves the
    first string short, the passes [0 .. k + 1] all run. *)
Lemma pass_state_reached i : forall f j state (k : nat),
  ssdeepState.blockSize state = blockMin * pow2 k ->
  (forall i' state_i,
      pass_state f j state i' = Some state_i ->
      blockMin <= ssdeepState.blockSize state_i ->
      len (ssdeepState.hashString1 (process state_i (f (j + i')%nat)))
      < spamSumLength / 2) ->
  (i <= k + 1)%nat ->
  exists state_i, pass_state f j state i = Some state_i.
Proof.
  induction i as [|i IH]; intros f j state k Hbs Hshort Hi.
  - eexists; reflexivity.
  - assert (Hmin : blockMin <= ssdeepState.blockSize state).
    { rewrite Hbs. pose proof (pow2_pos k). unfold blockMin. lia. }
    pose proof (Hshort 0%nat state eq_refl Hmin) as Hs0.
    rewrite Nat.add_0_r in Hs0.
    pose proof (body_short f j state Hmin Hs0) as Hbody.
    simpl. rewrite Hbody.
    destruct k as [|k].
    + assert (i = 0%nat) as -> by lia. eexists; reflexivity.
    + apply (IH _ _ _ k).
      * rewrite shrink_blockSize, process_blockSize, Hbs. apply quot_candidate.
      * intros i' state_i Hrun Hb.
        replace (S j + i')%nat with (j + S i')%nat by lia.
        apply Hshort; [|exact Hb]. simpl. rewrite Hbody. exact Hrun.
      * lia.
Qed.

Lemma window_zero_slot n :
  0 <= n < rollingWindow ->
  window_at make_window n = x00
  /\ <[Z.to_nat n := x00]> make_window = make_window.
Proof.
  unfold rollingWindow. intros Hn.
  assert (n = 0 \/ n = 1 \/ n = 2 \/ n = 3 \/ n = 4 \/ n = 5 \/ n = 6)
    as [->|[->|[->|[->|[->|[->| ->]]]]]] by lia;
    split; reflexivity.
Qed.

Lemma rollHash_zero state :
  zero_roll (ssdeepState.rollingState state) ->
  zero_roll (ssdeepState.rollingState (rollHash state x00)).
Proof.
  intros (Hw & H1 & H2 & H3 & Hn).
  destruct (window_zero_slot _ Hn) as (Hat & Hins).
  unfold zero_roll, rollHash; simpl.
  rewrite Hw, H1, H2, H3, Hat, Hins.
  repeat split; try reflexivity.
  all: unfold rollingWindow, wrap32 in *;
    rewrite (Z.mod_small (_ + 1)) by (unfold two_32; lia);
    destruct (Z.eqb_spec (rollingState.n (ssdeepState.rollingState state) + 1) 7);
    lia.
Qed.

(** A zero byte on a zero rolling state triggers nothing at a block size
    of 2 or more: the rolling sum stays 0. *)
Lemma processByte_zero state :
  zero_roll (ssdeepState.rollingState state) ->
  2 <= ssdeepState.blockSize state < two_63 ->
  zero_roll (ssdeepState.rollingState (processByte state x00))
  /\ ssdeepState.hashString1 (processByte state x00)
     = ssdeepState.hashString1 state.
Proof.
  intros Hz Hb.
  split.
  - rewrite processByte_rollingState. apply rollHash_zero, Hz.
  - unfold processByte. cbv zeta.
    set (state1 := set_blockHash2 _ _).
    assert (Hz1 : zero_roll (ssdeepState.rollingState (rollHash state1 x00)))
      by (apply rollHash_zero; exact Hz).
    destruct Hz1 as (_ & H1 & H2 & H3 & _).
    unfold rollSum. rewrite H1, H2, H3.
    change (wrap32 (wrap32 (0 + 0) + 0)) with 0.
    change (ssdeepState.blockSize (rollHash state1 x00))
      with (ssdeepState.blockSize state).
    rewrite Z.rem_0_l by lia.
    rewrite wrap64_small by (unfold is_int64, two_63 in *; lia).
    destruct (Z.eqb_spec 0 (ssdeepState.blockSize state - 1)); [lia|].
    reflexivity.
Qed.

Lemma scan_zeros count : forall state,
  zero_roll (ssdeepState.rollingState state) ->
  2 <= ssdeepState.blockSize state < two_63 ->
  ssdeepState.hashString1 (fold_left processByte (zeros count) state)
  = ssdeepState.hashString1 state.
Proof.
  induction count as [|count IH]; intros state Hz Hb; simpl.
  - reflexivity.
  - destruct (processByte_zero state Hz Hb) as (Hz' & Hs).
    rewrite IH; [exact Hs | exact Hz' |].
    rewrite processByte_blockSize. exact Hb.
Qed.

Lemma process_zeros count state err :
  2 <= ssdeepState.blockSize state < two_63 ->
  ssdeepState.hashString1 (process state (bufio_of (zeros count) err))
  = ssdeepState.hashString1 state.
Proof.
  intros Hb. unfold process.
  rewrite process_loop_delivered, delivered_bufio_of.
  rewrite scan_zeros; [reflexivity | | exact Hb].
  unfold zero_roll, rollingWindow; simpl. repeat split; lia.
Qed.

(** On zero-valued input every pass at a block size [3 * 2^k] leaves the
    first string empty. *)
Lemma zeros_short count j state (k : nat) :
  ssdeepState.blockSize state = blockMin * pow2 k ->
  (k <= 55)%nat ->
  ssdeepState.hashString1 state = EmptyString ->
  forall i state_i,
    pass_state (bytes_NewReader (zeros count)) j state i = Some state_i ->
    blockMin <= ssdeepState.blockSize state_i ->
    len (ssdeepState.hashString1
           (process state_i (bytes_NewReader (zeros count) (j + i)%nat)))
    < spamSumLength / 2.
Proof.
  intros Hbs Hk He i state_i Hrun Hb.
  unfold bytes_NewReader at 1. rewrite process_zeros.
  - rewrite (pass_state_empty _ _ _ _ _ He Hrun). reflexivity.
  - destruct (pass_state_blockSize _ _ _ _ _ _ Hbs Hrun) as [[Hi Hv]|[_ Hv]].
    + pose proof (pow2_mono (k - i) 55 ltac:(lia)) as Hm.
      pose proof (pow2_pos (k - i)).
      change (pow2 55) with 36028797018963968 in Hm.
      rewrite Hv. unfold blockMin, two_63. lia.
    + rewrite Hv in Hb. unfold blockMin in Hb. lia.
Qed.

Lemma FuzzyReader_zeros count fuel :
  minFileSize <= Z.of_nat count <= maxBlockInput ->
  (58 <= fuel)%nat ->
  FuzzyReader fuel (bytes_NewReader (zeros count)) (Z.of_nat count)
  = Some (EmptyString, Some ErrSmallBlock).
Proof.
  intros [Hlo Hhi] Hfuel. unfold FuzzyReader, getBlockSize.
  destruct (Z.ltb_spec (Z.of_nat count) minFileSize); [lia|].
  destruct (getBlockSize_loop_in_range _ Hhi) as (k & Hk & Hrun & _).
  rewrite Hrun by lia.
  set (state0 := set_blockSize newSsdeepState (blockMin * pow2 k)).
  destruct (FuzzyReader_loop_terminates k (bytes_NewReader (zeros count)) 0
              state0 fuel eq_refl ltac:(lia)) as ((res & Hres) & _).
  rewrite Hres.
  rewrite (FuzzyReader_loop_short _ _ _ _ _ Hres); [reflexivity|].
  apply (zeros_short count 0 state0 k); auto.
Qed.

Lemma FuzzyReader_pass_zeros count fuel i :
  minFileSize <= Z.of_nat count <= maxBlockInput ->
  (58 <= fuel)%nat ->
  exists k : nat,
    getBlockSize_loop fuel blockMin (Z.of_nat count) = Some (blockMin * pow2 k)
    /\ ((i <= k + 1)%nat ->
        exists state,
          FuzzyReader_pass fuel (bytes_NewReader (zeros count))
            (Z.of_nat count) i = Some state).
Proof.
  intros [Hlo Hhi] Hfuel.
  destruct (getBlockSize_loop_in_range _ Hhi) as (k & Hk & Hrun & _).
  exists k. split; [apply Hrun; lia|]. intros Hi.
  unfold FuzzyReader_pass, getBlockSize.
  destruct (Z.ltb_spec (Z.of_nat count) minFileSize); [lia|].
  rewrite Hrun by lia.
  apply (pass_state_reached i _ 0 _ k); [reflexivity | | exact Hi].
  apply (zeros_short count 0 _ k); auto.
Qed.

(** ** The sample input [ramp 4096] *)

Lemma ramp_run :
  FuzzyReader 7 (bytes_NewReader (ramp 4096)) 4096 = Some (ramp_digest, None).
Proof. vm_compute. reflexivity. Qed.

Lemma ramp_FuzzyBytes fuel :
  FuzzyBytes (7 + fuel) (ramp 4096) = Some (ramp_digest, None).
Proof.
  unfold FuzzyBytes.
  change (Z.of_nat (length (ramp 4096))) with 4096.
  rewrite (FuzzyReader_mono 7 (7 + fuel) _ _ _ ramp_run) by lia.
  reflexivity.
Qed.

(** ** Passes, halvings and the end of the loop *)

Lemma halvings_of_candidate (k : nat) : forall fuel,
  (k + 2 <= fuel)%nat ->
  halvings_below_min fuel (blockMin * pow2 k) = S k.
Proof.
  induction k as [|k IH]; intros fuel Hfuel.
  - destruct fuel as [|[|fuel]]; try lia. reflexivity.
  - destruct fuel as [|fuel]; [lia|]. simpl.
    pose proof (pow2_pos (S k)).
    destruct (Z.ltb_spec (blockMin * pow2 (S k)) blockMin) as [Hlt|_];
      [unfold blockMin in Hlt; lia|].
    rewrite quot_candidate, IH by lia. reflexivity.
Qed.

(** Once a pass starts with a block size below the minimum, the run ends
    with [ErrSmallBlock]. *)
Lemma FuzzyReader_loop_after_small i : forall fuel f j state state_i res,
  pass_state f j state i = Some state_i ->
  ssdeepState.blockSize state_i < blockMin ->
  FuzzyReader_loop fuel f j state = Some res ->
  res = inr (EmptyString, ErrSmallBlock).
Proof.
  induction i as [|i IH]; intros fuel f j state state_i res Hrun Hb Hres;
    (destruct fuel as [|fuel]; [discriminate|]); simpl in Hrun, Hres.
  - injection Hrun as <-. rewrite body_small in Hres by exact Hb.
    now injection Hres.
  - destruct (FuzzyReader_body f j state) as [state'| |]; try discriminate.
    exact (IH _ _ _ _ _ _ Hrun Hb Hres).
Qed.

Lemma not_block_form_1 : ~ block_form 1.
Proof.
  intros [k Hk]. pose proof (pow2_pos k). unfold blockMin in Hk. lia.
Qed.

(** * The claims *)

(** C5.  For every sequence of bytes pushed with [rollHash] on a fresh
    rolling state (all window slots zero), the window holds seven bytes and
    [h1] equals their sum modulo 2^32; the same holds for the rolling state
    [process] leaves behind after scanning any source. *)
Theorem C5_h1_is_window_sum :
  forall (state : ssdeepState.t) (data : list byte) (r : bufioReader),
    let pushed :=
      ssdeepState.rollingState (fold_left rollHash data (newRollingState state)) in
    let scanned := ssdeepState.rollingState (process state r) in
    length (rollingState.window pushed) = 7%nat
    /\ rollingState.h1 pushed = wrap32 (window_sum (rollingState.window pushed))
    /\ length (rollingState.window scanned) = 7%nat
    /\ rollingState.h1 scanned = wrap32 (window_sum (rollingState.window scanned)).
Proof.
  intros state data r pushed scanned.
  destruct (roll_inv_pushes (newRollingState state) data (roll_inv_new state))
    as (Hlen & _ & Hh1).
  assert (Hscan : roll_inv scanned).
  { unfold scanned, process. rewrite process_loop_delivered.
    apply scan_roll_inv, roll_inv_new. }
  destruct Hscan as (Hlen' & _ & Hh1').
  repeat split; assumption.
Qed.

(** C7.  [FuzzyReader] returns [ErrSmallInput] exactly when the declared
    size is below 4096; it then returns at once: the result needs no loop
    iteration (zero fuel), does not depend on the source, and no pass is
    started. *)
Theorem C7_small_input :
  forall (fuel : nat) (f : Reader) (size : Z),
    ((exists digest, FuzzyReader fuel f size = Some (digest, Some ErrSmallInput))
     <-> size < minFileSize)
    /\ (size < minFileSize ->
        FuzzyReader fuel f size = Some (EmptyString, Some ErrSmallInput)
        /\ (forall f', FuzzyReader 0 f' size = FuzzyReader fuel f size)
        /\ (forall i, FuzzyReader_pass fuel f size i = None)).
Proof.
  intros fuel f size. split; [split|].
  - intros [digest H]. apply FuzzyReader_errors in H as (_ & [[_ Hs]|[He _]]).
    + exact Hs.
    + discriminate.
  - intros Hs. exists EmptyString. unfold FuzzyReader.
    destruct (Z.ltb_spec size minFileSize); [reflexivity | lia].
  - intros Hs. unfold FuzzyReader, FuzzyReader_pass.
    destruct (Z.ltb_spec size minFileSize); [|lia]. repeat split.
Qed.

Lemma C7_small_input_witness :
  4095 < minFileSize
  /\ FuzzyReader 3 (bytes_NewReader (ramp 4095)) 4095
     = Some (EmptyString, Some ErrSmallInput).
Proof.
  split; [reflexivity|].
  apply (proj2 (C7_small_input 3 (bytes_NewReader (ramp 4095)) 4095)).
  reflexivity.
Defined.

(** C3.  With the declared size [math.MaxInt64] the loop of [getBlockSize]
    never ends, whatever the number of iterations allowed: the product
    [blockSize*spamSumLength] wraps around and stays below the size.  So
    [FuzzyReader] does not reach its first pass there. *)
Theorem C3_getBlockSize_overflow :
  forall (fuel : nat) (f : Reader),
    getBlockSize fuel newSsdeepState MaxInt64 = None
    /\ FuzzyReader fuel f MaxInt64 = None.
Proof.
  intros fuel f.
  assert (H : getBlockSize fuel newSsdeepState MaxInt64 = None)
    by (apply getBlockSize_diverges; reflexivity).
  split; [exact H|].
  unfold FuzzyReader. rewrite H. reflexivity.
Qed.

(** C2.  A source that delivers the 4096 bytes of [ramp] and then reports
    a read failure gets a digest and a nil error: the failure is not
    returned.  No read failure is ever returned. *)
Theorem C2_read_failure_dropped :
  closing_error (failing_Reader (ramp 4096) 5 0%nat) = ErrIO 5
  /\ FuzzyReader 7 (failing_Reader (ramp 4096) 5) 4096 = Some (ramp_digest, None)
  /\ (forall fuel f size digest code,
         FuzzyReader fuel f size <> Some (digest, Some (ErrIO code))).
Proof.
  split; [|split].
  - vm_compute. reflexivity.
  - rewrite <- ramp_run. apply FuzzyReader_ext.
    intros i. unfold failing_Reader, bytes_NewReader.
    now rewrite !delivered_bufio_of.
  - intros fuel f size digest code H.
    apply FuzzyReader_errors in H as (_ & [[He _]|[He _]]); discriminate.
Qed.

(** C4.  Every digest returned with a nil error is
    [<blockSize>:<s1>:<s2>] where the block size is positive and written
    as a non-empty run of decimal digits that reads back as the block size,
    [s1] has at most 64 characters, [s2] at most 32, and both consist of
    characters of [A-Za-z0-9+/]. *)
Theorem C4_digest_format :
  forall (fuel : nat) (f : Reader) (size : Z) (digest : string),
    FuzzyReader fuel f size = Some (digest, None) ->
    exists (blockSize : Z) (s1 s2 : string),
      digest = (format_int blockSize ++ ":" ++ s1 ++ ":" ++ s2)%string
      /\ 0 < blockSize
      /\ format_int blockSize <> EmptyString
      /\ string_forall is_digit (format_int blockSize) = true
      /\ parse_int (format_int blockSize) = Some blockSize
      /\ (String.length s1 <= 64)%nat
      /\ (String.length s2 <= 32)%nat
      /\ string_forall is_b64 s1 = true
      /\ string_forall is_b64 s2 = true.
Proof.
  intros fuel f size digest H.
  apply FuzzyReader_digest in H
    as (_ & state & k & -> & Hb & (H1 & H2 & _ & Ha1 & Ha2)).
  assert (Hpos : 0 < ssdeepState.blockSize state).
  { rewrite Hb. pose proof (pow2_pos k). unfold blockMin. lia. }
  destruct (format_int_positive _ Hpos) as (Hd & Hne & Hp).
  exists (ssdeepState.blockSize state), (ssdeepState.hashString1 state),
    (ssdeepState.hashString2 state).
  repeat split; assumption.
Qed.

Lemma C4_digest_format_witness :
  FuzzyReader 7 (bytes_NewReader (ramp 4096)) 4096 = Some (ramp_digest, None)
  /\ exists (blockSize : Z) (s1 s2 : string),
      ramp_digest = (format_int blockSize ++ ":" ++ s1 ++ ":" ++ s2)%string
      /\ 0 < blockSize
      /\ format_int blockSize <> EmptyString
      /\ string_forall is_digit (format_int blockSize) = true
      /\ parse_int (format_int blockSize) = Some blockSize
      /\ (String.length s1 <= 64)%nat
      /\ (String.length s2 <= 32)%nat
      /\ string_forall is_b64 s1 = true
      /\ string_forall is_b64 s2 = true.
Proof.
  split; [exact ramp_run|].
  exact (C4_digest_format 7 (bytes_NewReader (ramp 4096)) 4096 ramp_digest ramp_run).
Defined.

Lemma FuzzyBytes_mono fuel fuel' buffer res :
  FuzzyBytes fuel buffer = Some res ->
  (fuel <= fuel')%nat ->
  FuzzyBytes fuel' buffer = Some res.
Proof.
  unfold FuzzyBytes. intros H Hle.
  destruct (FuzzyReader fuel _ _) as [q|] eqn:E; [|discriminate].
  rewrite (FuzzyReader_mono _ _ _ _ _ E Hle). exact H.
Qed.

(** *** Calls on one reader *)

(** Whatever the index of the reader, an iteration rewinds it, scans the
    whole slice and leaves the index at the end of the slice. *)
Lemma FuzzyReader_body_on_rewinds f k state :
  FuzzyReader_body_on f state
  = (FuzzyReader_body (bytes_NewReader (bytesReader.s f)) k state,
     bytesReader.mk (bytesReader.s f)
       (Z.of_nat (length (bytesReader.s f)))).
Proof.
  unfold FuzzyReader_body_on, bytesReader_Seek, bytesReader_bufio.
  cbn [Z.ltb Z.compare bytesReader.s bytesReader.i Z.to_nat drop].
  rewrite Z.max_r by lia. reflexivity.
Qed.

Lemma FuzzyReader_loop_on_rewinds fuel : forall f k state,
  FuzzyReader_loop_on fuel f state
  = match FuzzyReader_loop fuel (bytes_NewReader (bytesReader.s f)) k state with
    | None => None
    | Some res =>
        Some (res, bytesReader.mk (bytesReader.s f)
                     (Z.of_nat (length (bytesReader.s f))))
    end.
Proof.
  induction fuel as [|fuel IH]; intros f k state;
    cbn [FuzzyReader_loop_on FuzzyReader_loop].
  - reflexivity.
  - rewrite (FuzzyReader_body_on_rewinds f k state).
    destruct (FuzzyReader_body (bytes_NewReader (bytesReader.s f)) k state);
      try reflexivity.
    rewrite (IH _ (S k)). reflexivity.
Qed.

(** A call on a reader in any state returns what the call on a new reader
    over the same slice returns, and leaves the reader at the end of the
    slice, or untouched when the size is below the minimum. *)
Lemma FuzzyReader_on_rewinds fuel f size :
  FuzzyReader_on fuel f size
  = match FuzzyReader fuel (bytes_NewReader (bytesReader.s f)) size with
    | None => None
    | Some res =>
        Some (res,
              if size <? minFileSize then f
              else bytesReader.mk (bytesReader.s f)
                     (Z.of_nat (length (bytesReader.s f))))
    end.
Proof.
  unfold FuzzyReader_on, FuzzyReader.
  destruct (size <? minFileSize); [reflexivity|].
  destruct (getBlockSize fuel newSsdeepState size) as [state|]; [|reflexivity].
  rewrite (FuzzyReader_loop_on_rewinds fuel f 0 state).
  destruct (FuzzyReader_loop fuel (bytes_NewReader (bytesReader.s f)) 0 state)
    as [[state'|[d e]]|]; reflexivity.
Qed.

Lemma FuzzyBytes_is_FuzzyReader fuel buffer :
  FuzzyBytes fuel buffer
  = FuzzyReader fuel (bytes_NewReader buffer) (Z.of_nat (length buffer)).
Proof.
  unfold FuzzyBytes.
  destruct (FuzzyReader fuel (bytes_NewReader buffer)
              (Z.of_nat (length buffer))) as [[d [e|]]|] eqn:E;
    try reflexivity.
  apply FuzzyReader_errors in E as (-> & _). reflexivity.
Qed.

(** C9.  What a call of [FuzzyReader] leaves changed behind it is the read
    index of its reader, and the next call does not depend on it: when a
    call on a [bytes.Reader] over [buffer], at any index, returns a result
    and leaves the reader in state [f1], then
    - a second call on that same reader, from the state [f1] the first
      call left it in, returns the identical digest and error within the
      same number of iterations and leaves the reader in [f1] again;
    - a call on any reader over [buffer], at any index and with any number
      of iterations, returns that digest and error if it returns;
    - the reader still reads [buffer], and when the size is at least the
      minimum the first call has left it at the end of the slice: read
      from there without a rewind it delivers no byte, so the rewind at
      the head of each pass is what the second call's result rests on;
    - with the length of [buffer] as size, every call of [FuzzyBytes] on
      [buffer] that returns, returns that digest and error. *)
Theorem C9_deterministic :
  forall (buffer : list byte) (i : Z) (size : Z) (fuel : nat)
         (res : string * option error) (f1 : bytesReader.t),
    FuzzyReader_on fuel (bytesReader.mk buffer i) size = Some (res, f1) ->
    FuzzyReader_on fuel f1 size = Some (res, f1)
    /\ (forall j fuel' res' f2,
           FuzzyReader_on fuel' (bytesReader.mk buffer j) size
           = Some (res', f2) ->
           res' = res)
    /\ bytesReader.s f1 = buffer
    /\ (minFileSize <= size ->
        bytesReader.i f1 = Z.of_nat (length buffer)
        /\ delivered (fst (bytesReader_bufio f1)) = [])
    /\ (size = Z.of_nat (length buffer) ->
        forall fuel' res', FuzzyBytes fuel' buffer = Some res' -> res' = res).
Proof.
  intros buffer i size fuel res f1 H.
  rewrite FuzzyReader_on_rewinds in H. cbn [bytesReader.s] in H.
  destruct (FuzzyReader fuel (bytes_NewReader buffer) size) as [res0|] eqn:E;
    [|discriminate].
  injection H as -> <-.
  assert (Hs : bytesReader.s
                 (if size <? minFileSize then bytesReader.mk buffer i
                  else bytesReader.mk buffer (Z.of_nat (length buffer)))
               = buffer) by (destruct (size <? minFileSize); reflexivity).
  assert (Hpure : forall fuel' res',
             FuzzyReader fuel' (bytes_NewReader buffer) size = Some res' ->
             res' = res).
  { intros fuel' res' E'.
    apply (FuzzyReader_mono _ (fuel + fuel')) in E; [|lia].
    apply (FuzzyReader_mono _ (fuel + fuel')) in E'; [|lia].
    rewrite E in E'. now injection E'. }
  split; [|split; [|split; [|split]]].
  - rewrite FuzzyReader_on_rewinds, Hs, E.
    destruct (size <? minFileSize); reflexivity.
  - intros j fuel' res' f2 H'.
    rewrite FuzzyReader_on_rewinds in H'. cbn [bytesReader.s] in H'.
    destruct (FuzzyReader fuel' (bytes_NewReader buffer) size) as [r|] eqn:E';
      [|discriminate].
    injection H' as <- _. exact (Hpure _ _ E').
  - exact Hs.
  - intros Hmin. destruct (Z.ltb_spec size minFileSize); [lia|].
    split; [reflexivity|].
    unfold bytesReader_bufio. cbn [fst bytesReader.s bytesReader.i].
    rewrite delivered_bufio_of, Nat2Z.id. apply drop_all.
  - intros -> fuel' res' E'. rewrite FuzzyBytes_is_FuzzyReader in E'.
    exact (Hpure _ _ E').
Qed.

Lemma C9_deterministic_witness :
  let used := bytesReader.mk (ramp 4096) 4096 in
  FuzzyReader_on 7 (bytesReader.mk (ramp 4096) 17) 4096
  = Some ((ramp_digest, None), used)
  /\ FuzzyReader_on 7 used 4096 = Some ((ramp_digest, None), used).
Proof.
  cbv zeta.
  assert (H : FuzzyReader_on 7 (bytesReader.mk (ramp 4096) 17) 4096
              = Some ((ramp_digest, None), bytesReader.mk (ramp 4096) 4096)).
  { rewrite FuzzyReader_on_rewinds. cbn [bytesReader.s].
    rewrite ramp_run. reflexivity. }
  split; [exact H|].
  exact (proj1 (C9_deterministic (ramp 4096) 17 4096 7 _ _ H)).
Defined.

(** C10.  Whatever bytes a pass has scanned so far, the second string is no
    longer than the first, the first has at most 63 characters and the
    second at most 31; the second string changes only on a byte on which
    the rolling sum meets the trigger of the first; and in every digest
    returned the second string is no longer than the first. *)
Theorem C10_second_string_not_longer :
  forall (fuel : nat) (f : Reader) (size : Z),
    (forall i state (data : list byte),
        FuzzyReader_pass fuel f size i = Some state ->
        let scanned := fold_left processByte data (newRollingState state) in
        (String.length (ssdeepState.hashString2 scanned)
         <= String.length (ssdeepState.hashString1 scanned))%nat
        /\ (String.length (ssdeepState.hashString1 scanned) <= 63)%nat
        /\ (String.length (ssdeepState.hashString2 scanned) <= 31)%nat)
    /\ (forall state b,
           ssdeepState.hashString2 (processByte state b)
           <> ssdeepState.hashString2 state ->
           Z.rem (rollSum (ssdeepState.rollingState (processByte state b)))
             (ssdeepState.blockSize state)
           = wrap64 (ssdeepState.blockSize state - 1))
    /\ (forall digest,
           FuzzyReader fuel f size = Some (digest, None) ->
           exists state,
             digest = Sprintf_digest (ssdeepState.blockSize state)
                        (ssdeepState.hashString1 state)
                        (ssdeepState.hashString2 state)
             /\ (String.length (ssdeepState.hashString2 state)
                 <= String.length (ssdeepState.hashString1 state))%nat
             /\ string_forall is_b64 (ssdeepState.hashString1 state) = true
             /\ string_forall is_b64 (ssdeepState.hashString2 state) = true).
Proof.
  intros fuel f size. split; [|split].
  - intros i state data Hpass scanned.
    assert (Hstart : strings_ok 63 31 state).
    { revert Hpass. unfold FuzzyReader_pass.
      destruct (size <? minFileSize); [discriminate|].
      destruct (getBlockSize fuel newSsdeepState size) as [state0|] eqn:Hg;
        [|discriminate].
      apply getBlockSize_new in Hg as (_ & Hok0).
      apply pass_state_strings_ok, Hok0. }
    destruct (scan_strings_ok data (newRollingState state) Hstart)
      as (H1 & H2 & H21 & _).
    auto.
  - intros state b Hchg.
    rewrite processByte_rollingState.
    revert Hchg. unfold processByte. cbv zeta.
    set (state1 := set_blockHash2 _ _).
    change (ssdeepState.blockSize (rollHash state1 b))
      with (ssdeepState.blockSize state).
    change (ssdeepState.rollingState (rollHash state1 b))
      with (ssdeepState.rollingState (rollHash state b)).
    destruct (Z.eqb_spec
                (Z.rem (rollSum (ssdeepState.rollingState (rollHash state b)))
                   (ssdeepState.blockSize state))
                (wrap64 (ssdeepState.blockSize state - 1))) as [Heq|Hne].
    + intros _. exact Heq.
    + intros Hchg. exfalso. apply Hchg. reflexivity.
  - intros digest H.
    apply FuzzyReader_digest in H
      as (_ & state & k & -> & _ & (_ & _ & H21 & Ha1 & Ha2)).
    exists state. auto.
Qed.

Lemma C10_second_string_not_longer_witness :
  FuzzyReader 7 (bytes_NewReader (ramp 4096)) 4096 = Some (ramp_digest, None)
  /\ exists state,
      ramp_digest = Sprintf_digest (ssdeepState.blockSize state)
                      (ssdeepState.hashString1 state)
                      (ssdeepState.hashString2 state)
      /\ (String.length (ssdeepState.hashString2 state)
          <= String.length (ssdeepState.hashString1 state))%nat
      /\ string_forall is_b64 (ssdeepState.hashString1 state) = true
      /\ string_forall is_b64 (ssdeepState.hashString2 state) = true.
Proof.
  split; [exact ramp_run|].
  exact (proj2 (proj2 (C10_second_string_not_longer
                         7 (bytes_NewReader (ramp 4096)) 4096))
           ramp_digest ramp_run).
Defined.

(** ** 4096 zero bytes *)

Lemma zeros4096_blockSize fuel :
  getBlockSize_loop (6 + fuel) blockMin 4096 = Some 96.
Proof. apply (getBlockSize_loop_mono 6); [reflexivity | lia]. Qed.

Lemma zeros4096_pass fuel i :
  (i <= 6)%nat ->
  exists state,
    FuzzyReader_pass (6 + fuel) (bytes_NewReader (zeros 4096)) 4096 i = Some state
    /\ (((i <= 5)%nat /\ ssdeepState.blockSize state = blockMin * pow2 (5 - i))
        \/ (i = 6%nat /\ ssdeepState.blockSize state = 1)).
Proof.
  intros Hi. unfold FuzzyReader_pass, getBlockSize.
  rewrite zeros4096_blockSize.
  change (4096 <? minFileSize) with false. cbv iota.
  set (state0 := set_blockSize newSsdeepState 96).
  assert (Hbs : ssdeepState.blockSize state0 = blockMin * pow2 5) by reflexivity.
  destruct (pass_state_reached i (bytes_NewReader (zeros 4096)) 0 state0 5 Hbs)
    as (state & Hrun); [|lia|].
  - apply (zeros_short 4096 0 state0 5); auto. lia.
  - exists state. split; [exact Hrun|].
    exact (pass_state_blockSize _ _ _ _ _ _ Hbs Hrun).
Qed.

Lemma zeros4096_FuzzyBytes fuel :
  FuzzyBytes (58 + fuel) (zeros 4096) = Some (EmptyString, Some ErrSmallBlock).
Proof.
  unfold FuzzyBytes.
  change (Z.of_nat (length (zeros 4096))) with (Z.of_nat 4096).
  rewrite FuzzyReader_zeros; [reflexivity | | lia].
  split; [reflexivity | discriminate].
Qed.

(** C1, as the code has it.  For 4096 zero-valued bytes the computation
    starts with block size 96; no pass at a block size of 3 or more puts a
    character in the first string; a seventh pass runs with block size 1;
    and [FuzzyBytes] returns the error [ErrSmallBlock], not a digest. *)
Theorem C1_zeros_ErrSmallBlock :
  forall fuel : nat,
    let f := bytes_NewReader (zeros 4096) in
    FuzzyBytes (58 + fuel) (zeros 4096) = Some (EmptyString, Some ErrSmallBlock)
    /\ (exists state,
           FuzzyReader_pass (58 + fuel) f 4096 0 = Some state
           /\ ssdeepState.blockSize state = 96)
    /\ (exists state,
           FuzzyReader_pass (58 + fuel) f 4096 6 = Some state
           /\ ssdeepState.blockSize state = 1)
    /\ (forall i, (i <= 5)%nat ->
           exists state,
             FuzzyReader_pass (58 + fuel) f 4096 i = Some state
             /\ ssdeepState.hashString1 (process state (f i)) = EmptyString).
Proof.
  intros fuel f. split; [apply zeros4096_FuzzyBytes|].
  change (58 + fuel)%nat with (6 + (52 + fuel))%nat.
  split; [|split].
  - destruct (zeros4096_pass (52 + fuel) 0 ltac:(lia))
      as (state & Hrun & [[_ Hb]|[Hi _]]); [|lia].
    exists state. split; [exact Hrun|]. exact Hb.
  - destruct (zeros4096_pass (52 + fuel) 6 ltac:(lia))
      as (state & Hrun & [[Hi _]|[_ Hb]]); [lia|].
    exists state. split; [exact Hrun|]. exact Hb.
  - intros i Hi.
    destruct (zeros4096_pass (52 + fuel) i ltac:(lia))
      as (state & Hrun & [[_ Hb]|[Hi' _]]); [|lia].
    exists state. split; [exact Hrun|].
    assert (He : ssdeepState.hashString1 state = EmptyString).
    { revert Hrun. unfold FuzzyReader_pass, getBlockSize.
      rewrite zeros4096_blockSize.
      change (4096 <? minFileSize) with false. cbv iota.
      apply pass_state_empty. reflexivity. }
    unfold f, bytes_NewReader. rewrite process_zeros; [exact He|].
    rewrite Hb. pose proof (pow2_mono (5 - i) 5 ltac:(lia)) as Hm.
    pose proof (pow2_pos (5 - i)).
    change (pow2 5) with 32 in Hm. unfold blockMin, two_63. lia.
Qed.

(** C1, as stated, fails: on 4096 zero-valued bytes [FuzzyBytes] returns
    [ErrSmallBlock], and no number of iterations makes it return a digest. *)
Lemma C1_zeros_no_digest :
  FuzzyBytes 58 (zeros 4096) = Some (EmptyString, Some ErrSmallBlock)
  /\ ~ (exists fuel digest, FuzzyBytes fuel (zeros 4096) = Some (digest, None)).
Proof.
  pose proof (zeros4096_FuzzyBytes 0) as H58.
  split; [exact H58|].
  intros (fuel & digest & H).
  apply (FuzzyBytes_mono _ (fuel + 58)) in H; [|lia].
  apply (FuzzyBytes_mono _ (fuel + 58)) in H58; [|lia].
  rewrite H in H58. discriminate.
Qed.

(** ** Block sizes of the passes *)

Lemma FuzzyReader_pass_blockSize fuel f size i state :
  FuzzyReader_pass fuel f size i = Some state ->
  minFileSize <= size <= maxBlockInput
  /\ exists k : nat,
      (k <= 55)%nat
      /\ getBlockSize_loop fuel blockMin size = Some (blockMin * pow2 k)
      /\ size <= blockMin * pow2 k * spamSumLength
      /\ (forall j, (j < k)%nat -> blockMin * pow2 j * spamSumLength < size)
      /\ (((i <= k)%nat
           /\ ssdeepState.blockSize state = blockMin * pow2 (k - i))
          \/ (i = S k /\ ssdeepState.blockSize state = 1)).
Proof.
  unfold FuzzyReader_pass.
  destruct (Z.ltb_spec size minFileSize) as [|Hs]; [discriminate|].
  destruct (getBlockSize fuel newSsdeepState size) as [state0|] eqn:Hg;
    [|discriminate].
  apply getBlockSize_new in Hg as (Hb & _).
  pose proof Hb as Hform.
  apply getBlockSize_loop_form in Hform as (Hmax & k & Hk & Hv & Hup & Hlow).
  intros Hrun. split; [lia|]. exists k.
  rewrite Hv in Hb.
  repeat split; try assumption.
  exact (pass_state_blockSize _ _ _ _ _ _ Hv Hrun).
Qed.

(** C8, as the code has it.  The block size of every pass is positive; pass
    [i] runs with the initial block size [3 * 2^k] halved [i] times, which
    is 3 times a power of two for [i <= k]; after a pass at block size 3
    that left the first string short, one more pass runs with block size 1,
    and the computation then returns [ErrSmallBlock].  The block size of
    every digest returned is 3 times a power of two. *)
Theorem C8_block_sizes :
  forall (fuel : nat) (f : Reader) (size : Z),
    (forall i state,
        FuzzyReader_pass fuel f size i = Some state ->
        0 < ssdeepState.blockSize state
        /\ exists k : nat,
            getBlockSize_loop fuel blockMin size = Some (blockMin * pow2 k)
            /\ (((i <= k)%nat
                 /\ ssdeepState.blockSize state = blockMin * pow2 (k - i)
                 /\ block_form (ssdeepState.blockSize state))
                \/ (i = S k
                    /\ ssdeepState.blockSize state = 1
                    /\ forall res,
                        FuzzyReader fuel f size = Some res ->
                        res = (EmptyString, Some ErrSmallBlock))))
    /\ (forall digest,
           FuzzyReader fuel f size = Some (digest, None) ->
           exists state,
             digest = Sprintf_digest (ssdeepState.blockSize state)
                        (ssdeepState.hashString1 state)
                        (ssdeepState.hashString2 state)
             /\ block_form (ssdeepState.blockSize state)).
Proof.
  intros fuel f size. split.
  - intros i state Hpass.
    destruct (FuzzyReader_pass_blockSize _ _ _ _ _ Hpass)
      as (_ & k & _ & Hg & _ & _ & Hcase).
    assert (Hpos : 0 < ssdeepState.blockSize state).
    { destruct Hcase as [[_ ->]|[_ ->]]; [|lia].
      pose proof (pow2_pos (k - i)). unfold blockMin. lia. }
    split; [exact Hpos|]. exists k. split; [exact Hg|].
    destruct Hcase as [[Hi Hb]|[Hi Hb]].
    + left. repeat split; try assumption. exists (k - i)%nat. exact Hb.
    + right. repeat split; try assumption.
      intros res. revert Hpass. unfold FuzzyReader, FuzzyReader_pass.
      destruct (size <? minFileSize); [discriminate|].
      destruct (getBlockSize fuel newSsdeepState size) as [state0|];
        [|discriminate].
      intros Hrun.
      destruct (FuzzyReader_loop fuel f 0 state0) as [r|] eqn:Hl;
        [|discriminate].
      rewrite (FuzzyReader_loop_after_small _ _ _ _ _ _ _ Hrun
                 ltac:(rewrite Hb; reflexivity) Hl).
      now intros [= <-].
  - intros digest H.
    apply FuzzyReader_digest in H as (_ & state & k & -> & Hb & _).
    exists state. split; [reflexivity|]. exists k. exact Hb.
Qed.

Lemma C8_block_sizes_witness :
  FuzzyReader_pass 7 (bytes_NewReader (ramp 4096)) 4096 0
  = Some (set_blockSize newSsdeepState 96)
  /\ 0 < ssdeepState.blockSize (set_blockSize newSsdeepState 96)
  /\ block_form 96.
Proof.
  assert (H : FuzzyReader_pass 7 (bytes_NewReader (ramp 4096)) 4096 0
              = Some (set_blockSize newSsdeepState 96)) by reflexivity.
  split; [exact H|].
  destruct (proj1 (C8_block_sizes 7 (bytes_NewReader (ramp 4096)) 4096) _ _ H)
    as (Hpos & k & _ & [(_ & _ & Hform)|(Hi & _)]).
  - split; [exact Hpos | exact Hform].
  - discriminate Hi.
Defined.

(** C8, as stated, fails: on 4096 zero-valued bytes the seventh pass starts
    with block size 1, which is not 3 times a power of two. *)
Lemma C8_pass_with_block_size_1 :
  (exists state,
      FuzzyReader_pass 58 (bytes_NewReader (zeros 4096)) 4096 6 = Some state
      /\ ssdeepState.blockSize state = 1)
  /\ ~ block_form 1.
Proof.
  split; [|exact not_block_form_1].
  destruct (zeros4096_pass 52 6 ltac:(lia))
    as (state & Hrun & [[Hi _]|[_ Hb]]); [lia|].
  exists state. split; [exact Hrun | exact Hb].
Qed.

(** C6, as the code has it.  For a declared size from 4096 to [3 * 2^61]
    the block size selection returns some [3 * 2^k] with [k <= 55], and
    [FuzzyReader] returns a result after at most [k + 2] passes, one more
    than the [k + 1] halvings that take [3 * 2^k] below the minimum; when no
    pass at a block size of 3 or more brings the first string to 32
    characters, the result is the error [ErrSmallBlock]. *)
Theorem C6_bounded_passes :
  forall (f : Reader) (size : Z),
    minFileSize <= size <= maxBlockInput ->
    exists k : nat,
      (k <= 55)%nat
      /\ halvings_below_min 64 (blockMin * pow2 k) = S k
      /\ forall fuel, (58 <= fuel)%nat ->
           (exists state,
               FuzzyReader_pass fuel f size 0 = Some state
               /\ ssdeepState.blockSize state = blockMin * pow2 k)
           /\ (exists res, FuzzyReader fuel f size = Some res)
           /\ FuzzyReader_pass fuel f size (k + 2) = None
           /\ ((forall i state,
                   FuzzyReader_pass fuel f size i = Some state ->
                   blockMin <= ssdeepState.blockSize state ->
                   len (ssdeepState.hashString1 (process state (f i)))
                   < spamSumLength / 2) ->
               FuzzyReader fuel f size = Some (EmptyString, Some ErrSmallBlock)).
Proof.
  intros f size [Hlo Hhi].
  destruct (getBlockSize_loop_in_range size Hhi) as (k & Hk & Hrun & _).
  exists k. split; [exact Hk|].
  split; [apply halvings_of_candidate; lia|].
  intros fuel Hfuel.
  unfold FuzzyReader, FuzzyReader_pass, getBlockSize.
  destruct (Z.ltb_spec size minFileSize); [lia|].
  rewrite Hrun by lia.
  set (state0 := set_blockSize newSsdeepState (blockMin * pow2 k)).
  destruct (FuzzyReader_loop_terminates k f 0 state0 fuel eq_refl ltac:(lia))
    as ((res & Hres) & Hend).
  rewrite Hres. repeat split.
  - exists state0. split; reflexivity.
  - destruct res as [state'|[d e]]; eexists; reflexivity.
  - exact Hend.
  - intros Hshort.
    rewrite (FuzzyReader_loop_short _ _ _ _ _ Hres); [reflexivity|].
    exact Hshort.
Qed.

Lemma C6_bounded_passes_witness :
  minFileSize <= 4096 <= maxBlockInput
  /\ exists k : nat,
      (k <= 55)%nat
      /\ halvings_below_min 64 (blockMin * pow2 k) = S k
      /\ forall fuel, (58 <= fuel)%nat ->
           (exists state,
               FuzzyReader_pass fuel (bytes_NewReader (zeros 4096)) 4096 0
               = Some state
               /\ ssdeepState.blockSize state = blockMin * pow2 k)
           /\ (exists res,
                  FuzzyReader fuel (bytes_NewReader (zeros 4096)) 4096 = Some res)
           /\ FuzzyReader_pass fuel (bytes_NewReader (zeros 4096)) 4096 (k + 2)
              = None
           /\ ((forall i state,
                   FuzzyReader_pass fuel (bytes_NewReader (zeros 4096)) 4096 i
                   = Some state ->
                   blockMin <= ssdeepState.blockSize state ->
                   len (ssdeepState.hashString1
                          (process state (bytes_NewReader (zeros 4096) i)))
                   < spamSumLength / 2) ->
               FuzzyReader fuel (bytes_NewReader (zeros 4096)) 4096
               = Some (EmptyString, Some ErrSmallBlock)).
Proof.
  assert (H : minFileSize <= 4096 <= maxBlockInput)
    by (split; [reflexivity | discriminate]).
  split; [exact H|].
  exact (C6_bounded_passes (bytes_NewReader (zeros 4096)) 4096 H).
Defined.

(** C6, as stated, fails twice.  On 4096 zero-valued bytes the initial
    block size is 96, six halvings take it below the minimum, and a seventh
    pass is started: the passes outnumber the halvings.  And with the
    declared size [math.MaxInt64] no number of iterations makes
    [FuzzyReader] return. *)
Lemma C6_passes_exceed_halvings :
  (exists state,
      FuzzyReader_pass 58 (bytes_NewReader (zeros 4096)) 4096 0 = Some state
      /\ ssdeepState.blockSize state = 96)
  /\ halvings_below_min 64 96 = 6%nat
  /\ (exists state,
         FuzzyReader_pass 58 (bytes_NewReader (zeros 4096)) 4096 6 = Some state)
  /\ ~ (exists fuel res,
           FuzzyReader fuel (bytes_NewReader (zeros 4096)) MaxInt64 = Some res).
Proof.
  split; [|split; [|split]].
  - destruct (zeros4096_pass 52 0 ltac:(lia))
      as (state & Hrun & [[_ Hb]|[Hi _]]); [|lia].
    exists state. split; [exact Hrun | exact Hb].
  - reflexivity.
  - destruct (zeros4096_pass 52 6 ltac:(lia)) as (state & Hrun & _).
    exists state. exact Hrun.
  - intros (fuel & res & H). unfold FuzzyReader in H.
    change (MaxInt64 <? minFileSize) with false in H. cbv iota in H.
    rewrite getBlockSize_diverges in H by reflexivity. discriminate.
Qed.

(** * Further properties of the package *)

(** ** The rolling window in closed form *)

Lemma wrap32_idem x : wrap32 (wrap32 x) = wrap32 x.
Proof. unfold wrap32. apply Z.mod_mod. discriminate. Qed.

Lemma wrap32_add_l a b : wrap32 (wrap32 a + b) = wrap32 (a + b).
Proof. unfold wrap32. apply Zplus_mod_idemp_l. Qed.

Lemma wrap32_add_r a b : wrap32 (a + wrap32 b) = wrap32 (a + b).
Proof. unfold wrap32. apply Zplus_mod_idemp_r. Qed.

Lemma wrap32_sub_l a b : wrap32 (wrap32 a - b) = wrap32 (a - b).
Proof. unfold wrap32. apply Zminus_mod_idemp_l. Qed.

Lemma wrap32_sub_r a b : wrap32 (a - wrap32 b) = wrap32 (a - b).
Proof. unfold wrap32. apply Zminus_mod_idemp_r. Qed.

Lemma wrap32_testbit x i :
  0 <= i -> Z.testbit (wrap32 x) i = (i <? 32) && Z.testbit x i.
Proof.
  intros Hi. unfold wrap32. change two_32 with (2 ^ 32).
  destruct (Z.ltb_spec i 32).
  - rewrite Z.mod_pow2_bits_low by lia. reflexivity.
  - rewrite Z.mod_pow2_bits_high by lia. reflexivity.
Qed.

Lemma wrap32_lxor x y : wrap32 (Z.lxor x y) = Z.lxor (wrap32 x) (wrap32 y).
Proof.
  apply Z.bits_inj'. intros i Hi.
  rewrite Z.lxor_spec, !wrap32_testbit, Z.lxor_spec by exact Hi.
  destruct (i <? 32); reflexivity.
Qed.

Lemma wrap32_shiftl_lxor x y k :
  0 <= k ->
  wrap32 (Z.shiftl (Z.lxor x y) k)
  = Z.lxor (wrap32 (Z.shiftl x k)) (wrap32 (Z.shiftl y k)).
Proof.
  intros Hk. rewrite Z.shiftl_lxor. apply wrap32_lxor.
Qed.

Lemma wrap32_shiftl_wrap32 x k :
  0 <= k -> wrap32 (Z.shiftl (wrap32 x) k) = wrap32 (Z.shiftl x k).
Proof.
  intros Hk. apply Z.bits_inj'. intros i Hi.
  rewrite !wrap32_testbit, !Z.shiftl_spec by exact Hi.
  destruct (Z.ltb_spec i 32) as [Hlt|]; [|reflexivity]. simpl.
  destruct (Z.le_gt_cases 0 (i - k)) as [Hik|Hik].
  - rewrite wrap32_testbit by exact Hik.
    destruct (Z.ltb_spec (i - k) 32); [reflexivity | lia].
  - rewrite !Z.testbit_neg_r by lia. reflexivity.
Qed.

Lemma wrap32_shiftl_out x k : 32 <= k -> wrap32 (Z.shiftl x k) = 0.
Proof.
  intros Hk. apply Z.bits_inj'. intros i Hi.
  rewrite wrap32_testbit, Z.shiftl_spec, Z.bits_0 by exact Hi.
  destruct (Z.ltb_spec i 32); [|reflexivity].
  rewrite Z.testbit_neg_r by lia. reflexivity.
Qed.

Lemma u32_range c : 0 <= u32 c < 256.
Proof.
  unfold u32. pose proof (Byte.to_N_bounded c). lia.
Qed.

Lemma wrap32_u32 c : wrap32 (u32 c) = u32 c.
Proof.
  unfold wrap32, two_32. pose proof (u32_range c).
  apply Z.mod_small. lia.
Qed.

Lemma h3_step_wrapped h c : wrap32 (h3_step h c) = h3_step h c.
Proof.
  unfold h3_step. rewrite wrap32_lxor, wrap32_idem, wrap32_u32. reflexivity.
Qed.

(** What was in [h3] before the bytes of [l] is shifted by 5 bits per byte
    and combined with the hash of [l] alone. *)
Lemma h3_fold_lxor (l : list byte) : forall x y,
  wrap32 x = x ->
  fold_left h3_step l (Z.lxor x y)
  = Z.lxor (wrap32 (Z.shiftl x (5 * Z.of_nat (length l))))
      (fold_left h3_step l y).
Proof.
  induction l as [|b l IH]; intros x y Hx.
  - simpl. rewrite Z.shiftl_0_r, Hx. reflexivity.
  - cbn [fold_left length].
    assert (Hstep : h3_step (Z.lxor x y) b
                    = Z.lxor (wrap32 (Z.shiftl x 5)) (h3_step y b)).
    { unfold h3_step. rewrite wrap32_shiftl_lxor by lia.
      now rewrite Z.lxor_assoc. }
    rewrite Hstep, IH by apply wrap32_idem.
    f_equal. rewrite wrap32_shiftl_wrap32 by lia.
    rewrite Z.shiftl_shiftl by lia. f_equal. f_equal. lia.
Qed.

(** Only the last seven bytes are left in [h3]. *)
Lemma h3_of_slide (a c : byte) (l : list byte) :
  length l = 6%nat ->
  h3_step (h3_of (a :: l)) c = h3_of (l ++ [c]).
Proof.
  intros Hl. unfold h3_of.
  change (h3_step (fold_left h3_step (a :: l) 0) c)
    with (fold_left h3_step [c] (fold_left h3_step (a :: l) 0)).
  rewrite <- fold_left_app. cbn [fold_left app].
  rewrite <- (Z.lxor_0_r (h3_step 0 a)).
  rewrite h3_fold_lxor by apply h3_step_wrapped.
  rewrite wrap32_shiftl_out by (rewrite length_app, Hl; simpl; lia).
  apply Z.lxor_0_l.
Qed.

Lemma weighted_from_app k (l1 l2 : list byte) :
  weighted_from k (l1 ++ l2)
  = weighted_from k l1 + weighted_from (k + Z.of_nat (length l1)) l2.
Proof.
  revert k. induction l1 as [|b l1 IH]; intros k; simpl length; simpl app;
    cbn [weighted_from].
  - rewrite Z.add_0_r. reflexivity.
  - rewrite IH. replace (k + 1 + Z.of_nat (length l1))
      with (k + Z.of_nat (S (length l1))) by lia. ring.
Qed.

Lemma weighted_from_shift k (l : list byte) :
  weighted_from (k + 1) l = weighted_from k l + window_sum l.
Proof.
  revert k. induction l as [|b l IH]; intros k; simpl.
  - reflexivity.
  - rewrite IH. ring.
Qed.

Lemma window_sum_app (l1 l2 : list byte) :
  window_sum (l1 ++ l2) = window_sum l1 + window_sum l2.
Proof.
  induction l1 as [|b l1 IH]; [reflexivity|].
  change (u32 b + window_sum (l1 ++ l2)
          = u32 b + window_sum l1 + window_sum l2).
  rewrite IH. ring.
Qed.

(** Dropping the oldest byte and adding [c] with weight 7. *)
Lemma weighted_sum_slide (a c : byte) (l : list byte) :
  length l = 6%nat ->
  weighted_sum (l ++ [c])
  = weighted_sum (a :: l) - window_sum (a :: l) + 7 * u32 c.
Proof.
  intros Hl. unfold weighted_sum.
  rewrite weighted_from_app, Hl. cbn [weighted_from window_sum foldr].
  rewrite (weighted_from_shift 1 l).
  fold (window_sum l). ring.
Qed.

Lemma window_sum_recent rs :
  window_sum (recent_of rs) = window_sum (rollingState.window rs).
Proof.
  unfold recent_of. rewrite window_sum_app, Z.add_comm, <- window_sum_app.
  now rewrite take_drop.
Qed.

(** A push drops the oldest byte of the window and puts [c] last. *)
Lemma recent_of_rollHash state c :
  roll_inv (ssdeepState.rollingState state) ->
  exists a l,
    recent_of (ssdeepState.rollingState state) = a :: l
    /\ length l = 6%nat
    /\ recent_of (ssdeepState.rollingState (rollHash state c)) = l ++ [c].
Proof.
  destruct state as [[w v1 v2 v3 n] bs s1 s2 b1 b2].
  unfold roll_inv, rollingWindow; simpl. intros (Hlen & Hn & _).
  do 8 (destruct w as [|? w]; try discriminate Hlen).
  assert (n = 0 \/ n = 1 \/ n = 2 \/ n = 3 \/ n = 4 \/ n = 5 \/ n = 6)
    as [->|[->|[->|[->|[->|[->| ->]]]]]] by lia;
    eexists _, _; repeat split; reflexivity.
Qed.

Lemma last_seven_length (data : list byte) : length (last_seven data) = 7%nat.
Proof.
  unfold last_seven. rewrite length_drop, length_app.
  change (length make_window) with 7%nat. lia.
Qed.

Lemma last_seven_snoc (data : list byte) c :
  exists a l,
    last_seven data = a :: l
    /\ length l = 6%nat
    /\ last_seven (data ++ [c]) = l ++ [c].
Proof.
  pose proof (last_seven_length data) as Hlen.
  destruct (last_seven data) as [|a l] eqn:E; [discriminate|].
  exists a, l. split; [reflexivity|]. split; [simpl in Hlen; lia|].
  unfold last_seven in *.
  rewrite length_app. simpl length.
  rewrite app_assoc, drop_app_le
    by (rewrite length_app; change (length make_window) with 7%nat; lia).
  f_equal.
  rewrite <- drop_drop, E. reflexivity.
Qed.

Lemma rollHash_cursor state c (count : Z) :
  0 <= count ->
  rollingState.n (ssdeepState.rollingState state) = count mod 7 ->
  rollingState.n (ssdeepState.rollingState (rollHash state c))
  = (count + 1) mod 7.
Proof.
  intros Hc Hn. unfold rollHash; simpl. rewrite Hn.
  pose proof (Z.mod_pos_bound count 7 eq_refl) as Hb.
  unfold wrap32, rollingWindow.
  rewrite (Z.mod_small (count mod 7 + 1)) by (unfold two_32; lia).
  rewrite <- (Zplus_mod_idemp_l count 1 7).
  destruct (Z.eqb_spec (count mod 7 + 1) 7) as [E|E].
  - rewrite E. reflexivity.
  - rewrite (Z.mod_small (count mod 7 + 1) 7) by lia. reflexivity.
Qed.

(** One push keeps the closed forms of [h2] and [h3]. *)
Lemma rollHash_closed state c :
  roll_inv (ssdeepState.rollingState state) ->
  rollingState.h2 (ssdeepState.rollingState state)
  = wrap32 (weighted_sum (recent_of (ssdeepState.rollingState state))) ->
  rollingState.h3 (ssdeepState.rollingState state)
  = h3_of (recent_of (ssdeepState.rollingState state)) ->
  rollingState.h2 (ssdeepState.rollingState (rollHash state c))
  = wrap32 (weighted_sum
              (recent_of (ssdeepState.rollingState (rollHash state c))))
  /\ rollingState.h3 (ssdeepState.rollingState (rollHash state c))
     = h3_of (recent_of (ssdeepState.rollingState (rollHash state c))).
Proof.
  intros Hinv H2 H3.
  destruct (recent_of_rollHash state c Hinv) as (a & l & Hr & Hl & Hr').
  destruct Hinv as (_ & _ & H1).
  rewrite <- window_sum_recent in H1.
  rewrite Hr in H1, H2, H3. rewrite Hr'.
  unfold rollHash; simpl. rewrite H1, H2, H3. split.
  - rewrite (weighted_sum_slide a c l Hl).
    set (W := weighted_sum (a :: l)). set (S := window_sum (a :: l)).
    unfold window_at. unfold rollingWindow.
    rewrite wrap32_add_l, wrap32_add_r.
    replace (wrap32 W - wrap32 S + 7 * u32 c)
      with (wrap32 W + (7 * u32 c - wrap32 S)) by ring.
    rewrite wrap32_add_l.
    replace (W + (7 * u32 c - wrap32 S))
      with (W + 7 * u32 c - wrap32 S) by ring.
    rewrite wrap32_sub_r. f_equal. ring.
  - apply (h3_of_slide a c l Hl).
Qed.

(** After any pushes on a fresh rolling state: the window holds the last
    seven bytes, the cursor is the number of pushes modulo 7, and [h2],
    [h3] are functions of those seven bytes. *)
Lemma pushes_closed state (data : list byte) :
  let rs :=
    ssdeepState.rollingState (fold_left rollHash data (newRollingState state)) in
  roll_inv rs
  /\ recent_of rs = last_seven data
  /\ rollingState.n rs = Z.of_nat (length data) mod 7
  /\ rollingState.h2 rs = wrap32 (weighted_sum (last_seven data))
  /\ rollingState.h3 rs = h3_of (last_seven data).
Proof.
  induction data as [|c data IH] using rev_ind.
  - cbv zeta. cbn [fold_left]. split; [apply roll_inv_new|].
    repeat split; reflexivity.
  - cbv zeta in *. rewrite fold_left_app. cbn [fold_left].
    set (st := fold_left rollHash data (newRollingState state)) in *.
    destruct IH as (Hinv & Hr & Hn & H2 & H3).
    rewrite <- Hr in H2, H3.
    destruct (rollHash_closed st c Hinv H2 H3) as (H2' & H3').
    destruct (recent_of_rollHash st c Hinv) as (a & l & Ea & Hl & Er).
    destruct (last_seven_snoc data c) as (a' & l' & Ea' & _ & Er').
    assert (l = l') as <- by congruence.
    rewrite Er', <- Er.
    split; [apply roll_inv_rollHash, Hinv|].
    split; [reflexivity|]. split; [|split; assumption].
    rewrite length_app. simpl length.
    replace (Z.of_nat (length data + 1)) with (Z.of_nat (length data) + 1)
      by lia.
    apply rollHash_cursor; [lia | exact Hn].
Qed.

Lemma scan_rollingState (data : list byte) : forall state,
  ssdeepState.rollingState (fold_left processByte data state)
  = ssdeepState.rollingState (fold_left rollHash data state).
Proof.
  assert (Hrs : forall s1 s2 c,
             ssdeepState.rollingState s1 = ssdeepState.rollingState s2 ->
             ssdeepState.rollingState (rollHash s1 c)
             = ssdeepState.rollingState (rollHash s2 c)).
  { intros s1 s2 c E. unfold rollHash; simpl. rewrite E. reflexivity. }
  assert (Hgen : forall (d : list byte) s1 s2,
             ssdeepState.rollingState s1 = ssdeepState.rollingState s2 ->
             ssdeepState.rollingState (fold_left processByte d s1)
             = ssdeepState.rollingState (fold_left rollHash d s2)).
  { induction d as [|c d IH]; intros s1 s2 E; simpl; [exact E|].
    apply IH. rewrite processByte_rollingState. apply Hrs, E. }
  intros state. apply Hgen. reflexivity.
Qed.

Lemma process_pushes state r :
  ssdeepState.rollingState (process state r)
  = ssdeepState.rollingState
      (fold_left rollHash (delivered r) (newRollingState state)).
Proof.
  unfold process. rewrite process_loop_delivered. apply scan_rollingState.
Qed.

Lemma process_rollSum state r :
  rollSum (ssdeepState.rollingState (process state r))
  = rollSum_of (last_seven (delivered r)).
Proof.
  rewrite process_pushes.
  destruct (pushes_closed state (delivered r)) as (Hinv & Hr & _ & H2 & H3).
  destruct Hinv as (_ & _ & H1).
  rewrite <- window_sum_recent, Hr in H1.
  unfold rollSum, rollSum_of. rewrite H1, H2, H3. reflexivity.
Qed.

(** X1.  After a pass over any source, the window read from the cursor
    holds the last seven bytes delivered (zero bytes before the start of the
    data), oldest first; the cursor is the number of bytes modulo 7; [h1] is
    the sum of those seven bytes, [h2] their sum weighted 1 (oldest) to 7
    (newest), both modulo 2^32, and [h3] the shift-and-xor hash of the seven
    bytes alone. *)
Theorem X1_rolling_state_closed_form :
  forall (state : ssdeepState.t) (r : bufioReader),
    let data := delivered r in
    let rs := ssdeepState.rollingState (process state r) in
    recent_of rs = last_seven data
    /\ rollingState.n rs = Z.of_nat (length data) mod 7
    /\ rollingState.h1 rs = wrap32 (window_sum (last_seven data))
    /\ rollingState.h2 rs = wrap32 (weighted_sum (last_seven data))
    /\ rollingState.h3 rs = h3_of (last_seven data).
Proof.
  intros state r data rs.
  destruct (pushes_closed state data) as (Hinv & Hr & Hn & H2 & H3).
  unfold data in Hinv, Hr, Hn, H2, H3.
  rewrite <- process_pushes in Hinv, Hr, Hn, H2, H3.
  fold rs in Hinv, Hr, Hn, H2, H3. fold data in Hr, Hn, H2, H3.
  repeat split; try assumption.
  destruct Hinv as (_ & _ & H1).
  rewrite H1, <- window_sum_recent, Hr. reflexivity.
Qed.

Lemma last_seven_suffix (d w : list byte) :
  length w = 7%nat -> last_seven (d ++ w) = w.
Proof.
  intros Hw. unfold last_seven.
  rewrite app_assoc.
  replace (length (d ++ w)) with (length (make_window ++ d))
    by (rewrite !length_app, Hw; change (length make_window) with 7%nat; lia).
  apply drop_app_length.
Qed.

(** X2.  The rolling sum consulted after a byte depends on that byte and
    the six before it only: two passes, over any two sources and from any
    two states, that have just read the same seven bytes have the same
    rolling sum. *)
Theorem X2_rollSum_last_seven_bytes :
  forall (state1 state2 : ssdeepState.t) (r1 r2 : bufioReader)
         (d1 d2 w : list byte),
    length w = 7%nat ->
    delivered r1 = d1 ++ w ->
    delivered r2 = d2 ++ w ->
    rollSum (ssdeepState.rollingState (process state1 r1))
    = rollSum (ssdeepState.rollingState (process state2 r2))
    /\ rollSum (ssdeepState.rollingState (process state1 r1)) = rollSum_of w.
Proof.
  intros state1 state2 r1 r2 d1 d2 w Hw E1 E2.
  rewrite !process_rollSum, E1, E2, !last_seven_suffix by exact Hw.
  split; reflexivity.
Qed.

Lemma X2_rollSum_last_seven_bytes_witness :
  let w := [x61; x62; x63; x64; x65; x66; x67] in
  length w = 7%nat
  /\ rollSum (ssdeepState.rollingState
                (process (set_blockSize newSsdeepState 3)
                   (bufio_of (ramp 20 ++ w) EOF)))
     = rollSum (ssdeepState.rollingState
                  (process (set_blockSize newSsdeepState 6)
                     (bufio_of ([xff; x10; x80] ++ w) EOF)))
  /\ rollSum (ssdeepState.rollingState
                (process (set_blockSize newSsdeepState 3)
                   (bufio_of (ramp 20 ++ w) EOF)))
     = rollSum_of w.
Proof.
  cbv zeta. split; [reflexivity|].
  refine (X2_rollSum_last_seven_bytes
            (set_blockSize newSsdeepState 3) (set_blockSize newSsdeepState 6)
            (bufio_of (ramp 20 ++ [x61; x62; x63; x64; x65; x66; x67]) EOF)
            (bufio_of ([xff; x10; x80] ++ [x61; x62; x63; x64; x65; x66; x67])
               EOF)
            (ramp 20) [xff; x10; x80] [x61; x62; x63; x64; x65; x66; x67]
            _ _ _).
  - reflexivity.
  - apply delivered_bufio_of.
  - apply delivered_bufio_of.
Defined.

(** ** One byte, case by case *)

Ltac reduce_state :=
  cbn -[wrap32 wrap64 Z.rem rollSum sumHash b64_char len Z.eqb Z.ltb
        spamSumLength Z.div Z.sub Z.mul Z.add String.append u32 window_at
        Z.lxor Z.shiftl rollingWindow hashInit].

(** [processByte] with its branches flattened: a string gets a character,
    and its block hash is reset, exactly when its trigger fires and the
    string is below its cap. *)
Lemma processByte_cases state b :
  let rolled := rollHash state b in
  let hash1 := sumHash b (ssdeepState.blockHash1 state) in
  let hash2 := sumHash b (ssdeepState.blockHash2 state) in
  let record1 :=
    coarse_trigger rolled
    && (len (ssdeepState.hashString1 state) <? spamSumLength - 1) in
  let record2 :=
    fine_trigger rolled
    && (len (ssdeepState.hashString2 state) <? spamSumLength / 2 - 1) in
  processByte state b
  = ssdeepState.mk
      (ssdeepState.rollingState rolled)
      (ssdeepState.blockSize state)
      (if record1 then ssdeepState.hashString1 state ++ b64_char hash1
       else ssdeepState.hashString1 state)%string
      (if record2 then ssdeepState.hashString2 state ++ b64_char hash2
       else ssdeepState.hashString2 state)%string
      (if record1 then hashInit else hash1)
      (if record2 then hashInit else hash2).
Proof.
  destruct state as [rs bs s1 s2 b1 b2].
  unfold processByte, fine_trigger, coarse_trigger. cbv zeta.
  reduce_state.
  destruct (Z.rem _ bs =? _); reduce_state; [|reflexivity].
  destruct (len s1 <? spamSumLength - 1); reduce_state;
    (destruct (Z.rem _ (wrap64 (bs * 2)) =? _); reduce_state;
     [destruct (len s2 <? spamSumLength / 2 - 1)|]; reflexivity).
Qed.

Lemma rollHash_rollingState_ext s1 s2 c :
  ssdeepState.rollingState s1 = ssdeepState.rollingState s2 ->
  ssdeepState.rollingState (rollHash s1 c)
  = ssdeepState.rollingState (rollHash s2 c).
Proof. intros E. unfold rollHash; simpl. rewrite E. reflexivity. Qed.

Lemma coarse_trigger_ext s1 s2 :
  ssdeepState.rollingState s1 = ssdeepState.rollingState s2 ->
  ssdeepState.blockSize s1 = ssdeepState.blockSize s2 ->
  coarse_trigger s1 = coarse_trigger s2.
Proof. intros E1 E2. unfold coarse_trigger. rewrite E1, E2. reflexivity. Qed.

Lemma fine_trigger_ext s1 s2 :
  ssdeepState.rollingState s1 = ssdeepState.rollingState s2 ->
  ssdeepState.blockSize s1 = ssdeepState.blockSize s2 ->
  fine_trigger s1 = fine_trigger s2.
Proof.
  intros E1 E2. unfold fine_trigger, coarse_trigger. rewrite E1, E2.
  reflexivity.
Qed.

Lemma count_triggers_ext trigger (data : list byte) : forall s1 s2,
  (forall t1 t2,
      ssdeepState.rollingState t1 = ssdeepState.rollingState t2 ->
      ssdeepState.blockSize t1 = ssdeepState.blockSize t2 ->
      trigger t1 = trigger t2) ->
  ssdeepState.rollingState s1 = ssdeepState.rollingState s2 ->
  ssdeepState.blockSize s1 = ssdeepState.blockSize s2 ->
  count_triggers trigger s1 data = count_triggers trigger s2 data.
Proof.
  induction data as [|b data IH]; intros s1 s2 Ht E1 E2; simpl.
  - reflexivity.
  - pose proof (rollHash_rollingState_ext s1 s2 b E1) as E1'.
    assert (E2' : ssdeepState.blockSize (rollHash s1 b)
                  = ssdeepState.blockSize (rollHash s2 b)) by exact E2.
    rewrite (Ht _ _ E1' E2'), (IH _ _ Ht E1' E2'). reflexivity.
Qed.

(** ** Characters and triggers *)

Lemma len_lt_cap (s : string) (cap : nat) (z : Z) :
  z = Z.of_nat cap -> (len s <? z) = (String.length s <? cap)%nat.
Proof.
  intros ->. unfold len.
  destruct (Z.ltb_spec (Z.of_nat (String.length s)) (Z.of_nat cap));
    destruct (Nat.ltb_spec (String.length s) cap); lia || reflexivity.
Qed.

(** The first string gets one character per firing of the first trigger,
    up to 63; the second one per firing of the second, up to 31. *)
Lemma scan_lengths (data : list byte) : forall state,
  (String.length (ssdeepState.hashString1 state) <= 63)%nat ->
  (String.length (ssdeepState.hashString2 state) <= 31)%nat ->
  String.length (ssdeepState.hashString1 (fold_left processByte data state))
  = Nat.min 63 (String.length (ssdeepState.hashString1 state)
                + count_triggers coarse_trigger state data)
  /\ String.length (ssdeepState.hashString2 (fold_left processByte data state))
     = Nat.min 31 (String.length (ssdeepState.hashString2 state)
                   + count_triggers fine_trigger state data).
Proof.
  induction data as [|b data IH]; intros state H1 H2.
  - cbn [fold_left count_triggers]. rewrite !Nat.add_0_r. lia.
  - cbn [fold_left count_triggers].
    pose proof (processByte_cases state b) as Hc. cbv zeta in Hc.
    rewrite (len_lt_cap _ 63) in Hc by reflexivity.
    rewrite (len_lt_cap _ 31) in Hc by reflexivity.
    assert (Ers : ssdeepState.rollingState (processByte state b)
                  = ssdeepState.rollingState (rollHash state b))
      by apply processByte_rollingState.
    assert (Ebs : ssdeepState.blockSize (processByte state b)
                  = ssdeepState.blockSize (rollHash state b))
      by exact (processByte_blockSize state b).
    rewrite <- (count_triggers_ext coarse_trigger data _ _
                  coarse_trigger_ext Ers Ebs).
    rewrite <- (count_triggers_ext fine_trigger data _ _
                  fine_trigger_ext Ers Ebs).
    assert (Hs1 : String.length (ssdeepState.hashString1 (processByte state b))
                  = Nat.min 63
                      (String.length (ssdeepState.hashString1 state)
                       + (if coarse_trigger (rollHash state b) then 1 else 0))).
    { rewrite Hc. cbn [ssdeepState.hashString1].
      destruct (coarse_trigger (rollHash state b)); cbn [andb].
      - destruct (Nat.ltb_spec (String.length (ssdeepState.hashString1 state)) 63).
        + rewrite length_append, b64_char_length. lia.
        + lia.
      - lia. }
    assert (Hs2 : String.length (ssdeepState.hashString2 (processByte state b))
                  = Nat.min 31
                      (String.length (ssdeepState.hashString2 state)
                       + (if fine_trigger (rollHash state b) then 1 else 0))).
    { rewrite Hc. cbn [ssdeepState.hashString2].
      destruct (fine_trigger (rollHash state b)); cbn [andb].
      - destruct (Nat.ltb_spec (String.length (ssdeepState.hashString2 state)) 31).
        + rewrite length_append, b64_char_length. lia.
        + lia.
      - lia. }
    destruct (IH (processByte state b)) as (IH1 & IH2); [lia | lia |].
    rewrite IH1, IH2, Hs1, Hs2.
    destruct (coarse_trigger (rollHash state b));
      destruct (fine_trigger (rollHash state b)); lia.
Qed.

(** X4.  A pass records one character in the first string for every byte
    on which the first trigger fires, up to 63 characters, and one in the
    second string for every byte on which the second trigger fires, up to
    31; firings beyond the cap are not recorded. *)
Theorem X4_string_lengths_count_triggers :
  forall (state : ssdeepState.t) (r : bufioReader),
    ssdeepState.hashString1 state = EmptyString ->
    ssdeepState.hashString2 state = EmptyString ->
    String.length (ssdeepState.hashString1 (process state r))
    = Nat.min 63 (count_triggers coarse_trigger (newRollingState state)
                    (delivered r))
    /\ String.length (ssdeepState.hashString2 (process state r))
       = Nat.min 31 (count_triggers fine_trigger (newRollingState state)
                       (delivered r)).
Proof.
  intros state r E1 E2. unfold process. rewrite process_loop_delivered.
  destruct (scan_lengths (delivered r) (newRollingState state)) as (H1 & H2).
  - cbn [newRollingState ssdeepState.hashString1]. rewrite E1. simpl. lia.
  - cbn [newRollingState ssdeepState.hashString2]. rewrite E2. simpl. lia.
  - cbn [newRollingState ssdeepState.hashString1 ssdeepState.hashString2]
      in H1, H2.
    rewrite E1 in H1. rewrite E2 in H2. exact (conj H1 H2).
Qed.

Lemma X4_string_lengths_count_triggers_witness :
  ssdeepState.hashString1 (set_blockSize newSsdeepState 3) = EmptyString
  /\ String.length
       (ssdeepState.hashString1
          (process (set_blockSize newSsdeepState 3) (bufio_of (ramp 40) EOF)))
     = Nat.min 63
         (count_triggers coarse_trigger
            (newRollingState (set_blockSize newSsdeepState 3))
            (delivered (bufio_of (ramp 40) EOF))).
Proof.
  split; [reflexivity|].
  exact (proj1 (X4_string_lengths_count_triggers
                  (set_blockSize newSsdeepState 3) (bufio_of (ramp 40) EOF)
                  eq_refl eq_refl)).
Defined.

(** ** The character of a block *)

Lemma scan_no_trigger (d : list byte) : forall state,
  count_triggers coarse_trigger state d = 0%nat ->
  ssdeepState.hashString1 (fold_left processByte d state)
  = ssdeepState.hashString1 state
  /\ ssdeepState.blockHash1 (fold_left processByte d state)
     = hash_block (ssdeepState.blockHash1 state) d.
Proof.
  induction d as [|b d IH]; intros state Hn.
  - split; reflexivity.
  - cbn [fold_left count_triggers hash_block] in *.
    destruct (coarse_trigger (rollHash state b)) eqn:Ht; [discriminate|].
    destruct (IH (processByte state b)) as (Hs & Hh).
    + rewrite (count_triggers_ext coarse_trigger d _ (rollHash state b)
                 coarse_trigger_ext).
      * exact Hn.
      * apply processByte_rollingState.
      * exact (processByte_blockSize state b).
    + rewrite Hs, Hh, (processByte_cases state b). cbv zeta. rewrite Ht.
      split; reflexivity.
Qed.

(** X5.  Piecewise hashing.  From a state whose first block hash is at its
    seed, when the first trigger does not fire on the bytes of [d], fires
    on the next byte [c], and the first string is below its cap, the scan
    of [d ++ [c]] appends exactly one character: [b64] at the FNV block
    hash of the bytes [d ++ [c]] alone, modulo 64; and the block hash is
    back at its seed. *)
Theorem X5_block_character :
  forall (state : ssdeepState.t) (d : list byte) (c : byte),
    ssdeepState.blockHash1 state = hashInit ->
    (String.length (ssdeepState.hashString1 state) < 63)%nat ->
    count_triggers coarse_trigger state d = 0%nat ->
    coarse_trigger (fold_left rollHash (d ++ [c]) state) = true ->
    ssdeepState.hashString1 (fold_left processByte (d ++ [c]) state)
    = (ssdeepState.hashString1 state
       ++ b64_char (hash_block hashInit (d ++ [c])))%string
    /\ ssdeepState.blockHash1 (fold_left processByte (d ++ [c]) state)
       = hashInit.
Proof.
  intros state d c Hseed Hlen Hnone Hfire.
  destruct (scan_no_trigger d state Hnone) as (Hs & Hh).
  rewrite fold_left_app in *. cbn [fold_left] in *.
  set (st := fold_left processByte d state) in *.
  assert (Ht : coarse_trigger (rollHash st c) = true).
  { rewrite <- Hfire. apply coarse_trigger_ext.
    - apply rollHash_rollingState_ext. apply scan_rollingState.
    - change (ssdeepState.blockSize st
              = ssdeepState.blockSize (fold_left rollHash d state)).
      unfold st. rewrite scan_blockSize.
      clear. revert state. induction d as [|b d IH]; intros state;
        [reflexivity|]. simpl. now rewrite <- IH. }
  rewrite (processByte_cases st c). cbv zeta.
  rewrite Ht, (len_lt_cap _ 63) by reflexivity.
  rewrite Hs, Hh, Hseed.
  destruct (Nat.ltb_spec (String.length (ssdeepState.hashString1 state)) 63);
    [|lia].
  cbn [andb ssdeepState.hashString1 ssdeepState.blockHash1].
  unfold hash_block. rewrite fold_left_app. split; reflexivity.
Qed.

(** ** Two block sizes *)

Lemma substring_all (s : string) : forall m,
  (String.length s <= m)%nat -> substring 0 m s = s.
Proof.
  induction s as [|a s IH]; intros m Hm; destruct m as [|m]; simpl in *;
    try reflexivity; try lia.
  rewrite IH by lia. reflexivity.
Qed.

Lemma substring_append (s t : string) : forall m,
  (m <= String.length s)%nat -> substring 0 m (s ++ t) = substring 0 m s.
Proof.
  induction s as [|a s IH]; intros m Hm; destruct m as [|m]; simpl in *;
    try reflexivity; try lia.
  - destruct t; reflexivity.
  - rewrite IH by lia. reflexivity.
Qed.

Lemma rollSum_nonneg rs : 0 <= rollSum rs.
Proof. unfold rollSum. apply wrap32_range. Qed.

(** The second trigger at block size [b] is the first trigger at [2b]. *)
Lemma fine_is_coarse_doubled stateA stateB :
  ssdeepState.rollingState stateA = ssdeepState.rollingState stateB ->
  ssdeepState.blockSize stateB = 2 * ssdeepState.blockSize stateA ->
  1 <= ssdeepState.blockSize stateA ->
  2 * ssdeepState.blockSize stateA < two_63 ->
  fine_trigger stateA = coarse_trigger stateB.
Proof.
  intros Ers Ebs Hlo Hhi. unfold fine_trigger, coarse_trigger.
  rewrite <- Ers, Ebs.
  set (b := ssdeepState.blockSize stateA) in *.
  set (rh := rollSum (ssdeepState.rollingState stateA)).
  pose proof (rollSum_nonneg (ssdeepState.rollingState stateA)) as Hrh.
  fold rh in Hrh.
  assert (H2 : wrap64 (b * 2) = 2 * b)
    by (rewrite wrap64_small; [ring | unfold is_int64, two_63 in *; lia]).
  rewrite H2.
  rewrite !wrap64_small by (unfold is_int64, two_63 in *; lia).
  rewrite !Z.rem_mod_nonneg by lia.
  destruct (Z.eqb_spec (rh mod (2 * b)) (2 * b - 1)) as [E|E].
  - rewrite andb_true_r.
    destruct (Z.eqb_spec (rh mod b) (b - 1)) as [|N]; [reflexivity|].
    exfalso. apply N. symmetry.
    apply (Z.mod_unique_pos rh b (2 * (rh / (2 * b)) + 1)); [lia|].
    pose proof (Z.div_mod rh (2 * b) ltac:(lia)). lia.
  - apply andb_false_r.
Qed.

Lemma doubled_processByte stateA stateB b :
  doubled stateA stateB ->
  doubled (processByte stateA b) (processByte stateB b).
Proof.
  intros (Ers & Ebs & Hlo & Hhi & Hcase).
  assert (Ers' : ssdeepState.rollingState (rollHash stateA b)
                 = ssdeepState.rollingState (rollHash stateB b))
    by (apply rollHash_rollingState_ext, Ers).
  pose proof (fine_is_coarse_doubled (rollHash stateA b) (rollHash stateB b)
                Ers' Ebs Hlo Hhi) as Ht.
  unfold doubled.
  rewrite !processByte_rollingState, !processByte_blockSize.
  repeat (split; [assumption|]).
  rewrite (processByte_cases stateA b), (processByte_cases stateB b).
  cbv zeta.
  cbn [ssdeepState.hashString1 ssdeepState.hashString2
       ssdeepState.blockHash1 ssdeepState.blockHash2].
  rewrite Ht, !(len_lt_cap _ 63), !(len_lt_cap _ 31) by reflexivity.
  destruct Hcase as [(Hlt & Es & Eh)|(Hge & Hl & Es)].
  - rewrite Es, Eh.
    destruct (Nat.ltb_spec (String.length (ssdeepState.hashString1 stateB)) 63);
      [|lia].
    destruct (Nat.ltb_spec (String.length (ssdeepState.hashString1 stateB)) 31);
      [|lia].
    rewrite andb_true_r.
    destruct (coarse_trigger (rollHash stateB b)).
    + destruct (Nat.lt_ge_cases
                  (S (String.length (ssdeepState.hashString1 stateB))) 31).
      * left. rewrite length_append, b64_char_length.
        repeat split; lia || reflexivity.
      * right. rewrite length_append, b64_char_length.
        repeat split; try lia.
        rewrite substring_all; [reflexivity|].
        rewrite length_append, b64_char_length. lia.
    + left. repeat split; assumption || reflexivity.
  - right.
    destruct (Nat.ltb_spec (String.length (ssdeepState.hashString2 stateA)) 31);
      [lia|].
    rewrite andb_false_r.
    destruct (coarse_trigger (rollHash stateB b) && _).
    + rewrite length_append, substring_append by lia.
      repeat split; try lia; assumption.
    + repeat split; assumption.
Qed.

Lemma doubled_scan (data : list byte) : forall stateA stateB,
  doubled stateA stateB ->
  doubled (fold_left processByte data stateA)
    (fold_left processByte data stateB).
Proof.
  induction data as [|b data IH]; intros stateA stateB H; simpl.
  - exact H.
  - apply IH, doubled_processByte, H.
Qed.

(** X6.  Scanning the same bytes at block size [b] and at block size [2b],
    from states with empty strings and equal block hashes: the second
    string of the scan at [b] is the first string of the scan at [2b],
    cut to 31 characters. *)
Theorem X6_second_string_is_first_at_double :
  forall (stateA stateB : ssdeepState.t) (r : bufioReader),
    ssdeepState.blockSize stateB = 2 * ssdeepState.blockSize stateA ->
    1 <= ssdeepState.blockSize stateA ->
    2 * ssdeepState.blockSize stateA < two_63 ->
    ssdeepState.hashString2 stateA = EmptyString ->
    ssdeepState.hashString1 stateB = EmptyString ->
    ssdeepState.blockHash2 stateA = ssdeepState.blockHash1 stateB ->
    ssdeepState.hashString2 (process stateA r)
    = substring 0 31 (ssdeepState.hashString1 (process stateB r)).
Proof.
  intros stateA stateB r Ebs Hlo Hhi EA EB Eh.
  unfold process. rewrite !process_loop_delivered.
  destruct (doubled_scan (delivered r)
              (newRollingState stateA) (newRollingState stateB))
    as (_ & _ & _ & _ & Hcase).
  - unfold doubled.
    cbn [newRollingState ssdeepState.rollingState ssdeepState.blockSize
         ssdeepState.hashString1 ssdeepState.hashString2
         ssdeepState.blockHash1 ssdeepState.blockHash2].
    repeat (split; [reflexivity || assumption|]).
    left. rewrite EA, EB. repeat split; [simpl; lia | exact Eh].
  - destruct Hcase as [(Hlt & Es & _)|(_ & _ & Es)].
    + rewrite Es, substring_all by lia. reflexivity.
    + exact Es.
Qed.

Lemma X5_block_character_witness :
  let state := set_blockSize newSsdeepState 3 in
  count_triggers coarse_trigger state (ramp 14) = 0%nat
  /\ coarse_trigger (fold_left rollHash (ramp 14 ++ [x0e]) state) = true
  /\ ssdeepState.hashString1 (fold_left processByte (ramp 14 ++ [x0e]) state)
     = (ssdeepState.hashString1 state
        ++ b64_char (hash_block hashInit (ramp 14 ++ [x0e])))%string.
Proof.
  cbv zeta.
  assert (H0 : count_triggers coarse_trigger (set_blockSize newSsdeepState 3)
                 (ramp 14) = 0%nat) by (vm_compute; reflexivity).
  assert (H1 : coarse_trigger
                 (fold_left rollHash (ramp 14 ++ [x0e])
                    (set_blockSize newSsdeepState 3)) = true)
    by (vm_compute; reflexivity).
  split; [exact H0|]. split; [exact H1|].
  refine (proj1 (X5_block_character (set_blockSize newSsdeepState 3)
                   (ramp 14) x0e eq_refl _ H0 H1)).
  simpl. lia.
Defined.

Lemma X6_second_string_is_first_at_double_witness :
  2 * ssdeepState.blockSize (set_blockSize newSsdeepState 3) < two_63
  /\ ssdeepState.hashString2
       (process (set_blockSize newSsdeepState 3) (bufio_of (ramp 300) EOF))
     = substring 0 31
         (ssdeepState.hashString1
            (process (set_blockSize newSsdeepState 6)
               (bufio_of (ramp 300) EOF))).
Proof.
  assert (H : 2 * ssdeepState.blockSize (set_blockSize newSsdeepState 3)
              < two_63) by reflexivity.
  split; [exact H|].
  refine (X6_second_string_is_first_at_double
            (set_blockSize newSsdeepState 3) (set_blockSize newSsdeepState 6)
            (bufio_of (ramp 300) EOF) eq_refl _ H eq_refl eq_refl eq_refl).
  discriminate.
Defined.

(** ** The block size chosen *)

(** X3.  For a size of at most [3 * 2^61], [getBlockSize] sets the block
    size to the smallest [3 * 2^k] whose 64-fold is not below the size and
    leaves the rest of the state alone; [k] is at most 55; sizes up to 192
    get the minimum, 3; for larger sizes 64 times the block size is below
    twice the size. *)
Theorem X3_getBlockSize_smallest :
  forall (state : ssdeepState.t) (n : Z),
    n <= maxBlockInput ->
    exists k : nat,
      (k <= 55)%nat
      /\ (forall fuel, (56 < fuel)%nat ->
          getBlockSize fuel state n
          = Some (set_blockSize state (blockMin * pow2 k)))
      /\ n <= blockMin * pow2 k * spamSumLength
      /\ (forall i, (i < k)%nat -> blockMin * pow2 i * spamSumLength < n)
      /\ (n <= 192 -> k = 0%nat)
      /\ (192 < n -> blockMin * pow2 k * spamSumLength < 2 * n).
Proof.
  intros state n Hn.
  destruct (getBlockSize_loop_in_range n Hn) as (k & Hk & Hrun & Hup & Hlow).
  exists k. repeat split; try assumption.
  - intros fuel Hfuel. unfold getBlockSize. rewrite Hrun by exact Hfuel.
    reflexivity.
  - intros Hs. destruct k as [|k]; [reflexivity|].
    pose proof (Hlow 0%nat ltac:(lia)) as H0.
    change (blockMin * pow2 0 * spamSumLength) with 192 in H0. lia.
  - intros Hl. destruct k as [|k].
    + change (blockMin * pow2 0 * spamSumLength) with 192 in Hup. lia.
    + pose proof (Hlow k ltac:(lia)) as Hk1. rewrite pow2_S.
      unfold blockMin, spamSumLength in *. lia.
Qed.

Lemma X3_getBlockSize_smallest_witness :
  4096 <= maxBlockInput
  /\ getBlockSize 57 newSsdeepState 4096
     = Some (set_blockSize newSsdeepState 96).
Proof.
  assert (H : 4096 <= maxBlockInput) by discriminate.
  split; [exact H|].
  destruct (X3_getBlockSize_smallest newSsdeepState 4096 H)
    as (k & _ & Hrun & _).
  rewrite (Hrun 57%nat ltac:(lia)).
  assert (E : getBlockSize 57 newSsdeepState 4096
              = Some (set_blockSize newSsdeepState 96)) by reflexivity.
  rewrite <- (Hrun 57%nat ltac:(lia)). exact E.
Defined.

(** ** The pass that gives the digest *)

Lemma body_Break_length f k state state' :
  FuzzyReader_body f k state = Break state' ->
  spamSumLength / 2 <= len (ssdeepState.hashString1 (process state (f k)))
  /\ state' = finalize (process state (f k)).
Proof.
  unfold FuzzyReader_body.
  destruct (_ <? blockMin); [discriminate|].
  destruct (Z.ltb_spec (len (ssdeepState.hashString1 (process state (f k))))
              (spamSumLength / 2)) as [|Hl]; [discriminate|].
  intros [= <-]. split; [exact Hl | reflexivity].
Qed.

(** A loop that ends with [break] does so in the first pass that brings the
    first string to 32 characters. *)
Lemma FuzzyReader_loop_break fuel : forall f j state state',
  FuzzyReader_loop fuel f j state = Some (inl state') ->
  exists i state_i,
    pass_state f j state i = Some state_i
    /\ FuzzyReader_body f (j + i) state_i = Break state'
    /\ (forall i' state_i',
           (i' < i)%nat ->
           pass_state f j state i' = Some state_i' ->
           len (ssdeepState.hashString1 (process state_i' (f (j + i')%nat)))
           < spamSumLength / 2).
Proof.
  induction fuel as [|fuel IH]; intros f j state state' H; simpl in H.
  - discriminate.
  - destruct (FuzzyReader_body f j state) as [state1|state1|] eqn:Hbody.
    + destruct (IH _ _ _ _ H) as (i & state_i & Hrun & Hbreak & Hbefore).
      exists (S i), state_i. split; [simpl; rewrite Hbody; exact Hrun|].
      split; [replace (j + S i)%nat with (S j + i)%nat by lia; exact Hbreak|].
      intros i' state_i' Hi' Hrun'. destruct i' as [|i'].
      * injection Hrun' as <-. rewrite Nat.add_0_r.
        apply body_Continue in Hbody as (_ & _ & Hshort & _). exact Hshort.
      * simpl in Hrun'. rewrite Hbody in Hrun'.
        replace (j + S i')%nat with (S j + i')%nat by lia.
        apply (Hbefore i' state_i'); [lia | exact Hrun'].
    + injection H as <-. exists 0%nat, state.
      split; [reflexivity|]. split; [rewrite Nat.add_0_r; exact Hbody|].
      intros i' state_i' Hi'. lia.
    + discriminate.
Qed.

(** X7.  A digest comes from the first pass, in the order of halved block
    sizes, whose scan brings the first string to 32 characters: every pass
    before it ended below 32; the digest is that pass's block size and its
    two strings after finalization; and the first string of the digest has
    from 32 to 64 characters. *)
Theorem X7_digest_of_first_long_pass :
  forall (fuel : nat) (f : Reader) (size : Z) (digest : string),
    FuzzyReader fuel f size = Some (digest, None) ->
    exists i state_i,
      FuzzyReader_pass fuel f size i = Some state_i
      /\ (forall i' state_i',
             (i' < i)%nat ->
             FuzzyReader_pass fuel f size i' = Some state_i' ->
             len (ssdeepState.hashString1 (process state_i' (f i')))
             < spamSumLength / 2)
      /\ spamSumLength / 2
         <= len (ssdeepState.hashString1 (process state_i (f i)))
      /\ digest
         = Sprintf_digest (ssdeepState.blockSize state_i)
             (ssdeepState.hashString1 (finalize (process state_i (f i))))
             (ssdeepState.hashString2 (finalize (process state_i (f i))))
      /\ (32 <= String.length
                  (ssdeepState.hashString1 (finalize (process state_i (f i))))
          <= 64)%nat.
Proof.
  intros fuel f size digest. unfold FuzzyReader, FuzzyReader_pass.
  destruct (size <? minFileSize); [discriminate|].
  destruct (getBlockSize fuel newSsdeepState size) as [state0|] eqn:Hg;
    [|discriminate].
  apply getBlockSize_new in Hg as (_ & Hok0).
  destruct (FuzzyReader_loop fuel f 0 state0) as [[state'|[d e]]|] eqn:Hl;
    try discriminate.
  intros [= <-].
  destruct (FuzzyReader_loop_break _ _ _ _ _ Hl)
    as (i & state_i & Hrun & Hbreak & Hbefore).
  simpl in Hbreak.
  pose proof (pass_state_strings_ok _ _ _ _ _ Hok0 Hrun) as Hok.
  destruct (body_Break_length _ _ _ _ Hbreak) as (Hlong & ->).
  exists i, state_i. split; [exact Hrun|]. split; [exact Hbefore|].
  split; [exact Hlong|]. split.
  - rewrite finalize_blockSize, process_blockSize. reflexivity.
  - pose proof (finalize_strings_ok _ (process_strings_ok _ (f i) Hok))
      as (H64 & _).
    split; [|exact H64].
    unfold len, spamSumLength in Hlong. change (64 / 2) with 32 in Hlong.
    unfold finalize. destruct (negb _); simpl;
      rewrite ?length_append; lia.
Qed.

Lemma X7_digest_of_first_long_pass_witness :
  FuzzyReader 7 (bytes_NewReader (ramp 4096)) 4096 = Some (ramp_digest, None)
  /\ exists i state_i,
      FuzzyReader_pass 7 (bytes_NewReader (ramp 4096)) 4096 i = Some state_i
      /\ spamSumLength / 2
         <= len (ssdeepState.hashString1
                   (process state_i (bytes_NewReader (ramp 4096) i))).
Proof.
  split; [exact ramp_run|].
  destruct (X7_digest_of_first_long_pass _ _ _ _ ramp_run)
    as (i & state_i & Hrun & _ & Hlong & _).
  exists i, state_i. split; [exact Hrun | exact Hlong].
Defined.

(** ** Buffers *)

(** X8.  A buffer of zero-valued bytes of any length from 4096 to
    [3 * 2^61] has no digest: [FuzzyBytes] returns [ErrSmallBlock]. *)
Theorem X8_zero_buffers_have_no_digest :
  forall (count fuel : nat),
    minFileSize <= Z.of_nat count <= maxBlockInput ->
    FuzzyBytes (58 + fuel) (zeros count)
    = Some (EmptyString, Some ErrSmallBlock).
Proof.
  intros count fuel Hc. unfold FuzzyBytes, zeros.
  rewrite length_replicate. fold (zeros count).
  rewrite FuzzyReader_zeros; [reflexivity | exact Hc | lia].
Qed.

Lemma X8_zero_buffers_have_no_digest_witness :
  minFileSize <= Z.of_nat 5000 <= maxBlockInput
  /\ FuzzyBytes 58 (zeros 5000) = Some (EmptyString, Some ErrSmallBlock).
Proof.
  assert (H : minFileSize <= Z.of_nat 5000 <= maxBlockInput)
    by (split; discriminate).
  split; [exact H|].
  exact (X8_zero_buffers_have_no_digest 5000 0 H).
Defined.

Lemma Sprintf_digest_nonempty blockSize s1 s2 :
  0 < blockSize -> Sprintf_digest blockSize s1 s2 <> EmptyString.
Proof.
  intros Hb. unfold Sprintf_digest.
  destruct (format_int_positive _ Hb) as (_ & Hne & _).
  destruct (format_int blockSize); [contradiction | discriminate].
Qed.

(** X9.  For every buffer of at most [3 * 2^61] bytes [FuzzyBytes] returns,
    and what it returns is what [FuzzyReader] returns on the buffer and its
    length: [ErrSmallInput] with an empty string exactly when the buffer
    has fewer than 4096 bytes, and otherwise either [ErrSmallBlock] with an
    empty string or a non-empty digest with a nil error. *)
Theorem X9_FuzzyBytes_outcomes :
  forall (buffer : list byte) (fuel : nat),
    Z.of_nat (length buffer) <= maxBlockInput ->
    (58 <= fuel)%nat ->
    FuzzyBytes fuel buffer
    = FuzzyReader fuel (bytes_NewReader buffer) (Z.of_nat (length buffer))
    /\ ((Z.of_nat (length buffer) < minFileSize
         /\ FuzzyBytes fuel buffer = Some (EmptyString, Some ErrSmallInput))
        \/ (minFileSize <= Z.of_nat (length buffer)
            /\ (FuzzyBytes fuel buffer = Some (EmptyString, Some ErrSmallBlock)
                \/ exists digest,
                    FuzzyBytes fuel buffer = Some (digest, None)
                    /\ digest <> EmptyString))).
Proof.
  intros buffer fuel Hmax Hfuel.
  set (n := Z.of_nat (length buffer)) in *.
  assert (Heq : FuzzyBytes fuel buffer
                = FuzzyReader fuel (bytes_NewReader buffer) n).
  { unfold FuzzyBytes. fold n.
    destruct (FuzzyReader fuel (bytes_NewReader buffer) n)
      as [[d [e|]]|] eqn:E; try reflexivity.
    apply FuzzyReader_errors in E as (-> & _). reflexivity. }
  split; [exact Heq|]. rewrite Heq.
  destruct (Z.lt_ge_cases n minFileSize) as [Hs|Hs].
  - left. split; [exact Hs|].
    unfold FuzzyReader.
    destruct (Z.ltb_spec n minFileSize); [reflexivity | lia].
  - right. split; [exact Hs|].
    assert (Hret : exists res,
               FuzzyReader fuel (bytes_NewReader buffer) n = Some res).
    { unfold FuzzyReader, getBlockSize.
      destruct (Z.ltb_spec n minFileSize); [lia|].
      destruct (getBlockSize_loop_in_range n Hmax) as (k & Hk & Hrun & _).
      rewrite Hrun by lia.
      destruct (FuzzyReader_loop_terminates k (bytes_NewReader buffer) 0
                  (set_blockSize newSsdeepState (blockMin * pow2 k))
                  fuel eq_refl ltac:(lia)) as ((res & Hres) & _).
      rewrite Hres. destruct res as [st|[d e]]; eexists; reflexivity. }
    destruct Hret as ([d [e|]] & Hres); rewrite Hres.
    + left. apply FuzzyReader_errors in Hres as (-> & [[_ Hlt]|[-> _]]);
        [lia | reflexivity].
    + right. exists d. split; [reflexivity|].
      apply FuzzyReader_digest in Hres as (_ & st & k & -> & Hb & _).
      apply Sprintf_digest_nonempty. rewrite Hb.
      pose proof (pow2_pos k). unfold blockMin. lia.
Qed.

Lemma X9_FuzzyBytes_outcomes_witness :
  Z.of_nat (length (ramp 4096)) <= maxBlockInput
  /\ FuzzyBytes 58 (ramp 4096)
     = FuzzyReader 58 (bytes_NewReader (ramp 4096))
         (Z.of_nat (length (ramp 4096))).
Proof.
  assert (H : Z.of_nat (length (ramp 4096)) <= maxBlockInput)
    by (vm_compute; discriminate).
  split; [exact H|].
  exact (proj1 (X9_FuzzyBytes_outcomes (ramp 4096) 58 H ltac:(lia))).
Defined.

(** ** Files *)

(** X10.  [FuzzyFile] returns a digest only after [Seek] and [Stat] both
    succeeded, and then it is what [FuzzyReader] returns for the size
    [Stat] reports; its last call then seeks back to the offset the first
    [Seek] returned.  On every error the string is empty and that last
    [Seek] is not made: the offset is not restored.  An error other than
    [ErrSmallInput] and [ErrSmallBlock] comes from [Seek] or from [Stat],
    never from reading. *)
Theorem X10_FuzzyFile_restores_offset_on_success_only :
  forall (fuel : nat) (f : osFile.t) (result : string) (err : option error)
         (calls : list fileCall),
    FuzzyFile fuel f = Some (result, err, calls) ->
    (err = None
     <-> last calls = Some (CallSeek (fst (osFile.Seek_current f)) SeekStart))
    /\ (err <> None -> result = EmptyString)
    /\ (err = None ->
        snd (osFile.Seek_current f) = None
        /\ snd (osFile.Stat f) = None
        /\ FuzzyReader fuel (osFile.reader f) (fst (osFile.Stat f))
           = Some (result, None))
    /\ (forall e, err = Some e ->
          snd (osFile.Seek_current f) = Some e
          \/ snd (osFile.Stat f) = Some e
          \/ (e = ErrSmallInput /\ fst (osFile.Stat f) < minFileSize)
          \/ (e = ErrSmallBlock /\ minFileSize <= fst (osFile.Stat f))).
Proof.
  intros fuel f result err calls. unfold FuzzyFile.
  destruct (osFile.Seek_current f) as [currentPosition [e0|]]; cbn [fst snd].
  { intros [= <- <- <-]. simpl.
    repeat split; try discriminate; auto; intros; congruence. }
  destruct (osFile.Stat f) as [size [e1|]]; cbn [fst snd].
  { intros [= <- <- <-]. simpl.
    repeat split; try discriminate; auto; intros; congruence. }
  destruct (FuzzyReader fuel (osFile.reader f) size) as [[d [e|]]|] eqn:Hr;
    [| |discriminate].
  - intros [= <- <- <-].
    apply FuzzyReader_errors in Hr as (_ & Hcase). simpl.
    repeat split; try discriminate; auto; try (intros; congruence).
    intros e' [= <-]. destruct Hcase as [H|H]; auto.
  - intros [= <- <- <-]. simpl.
    repeat split; try discriminate; auto; intros; congruence.
Qed.

Lemma X10_FuzzyFile_restores_offset_on_success_only_witness :
  let f := osFile.mk (123, None) (4096, None) (bytes_NewReader (ramp 4096)) in
  FuzzyFile 7 f
  = Some (ramp_digest, None,
          [CallSeek 0 SeekCurrent; CallSeek 0 SeekStart; CallStat;
           CallFuzzyReader 4096; CallSeek 123 SeekStart])
  /\ FuzzyReader 7 (osFile.reader f) (fst (osFile.Stat f))
     = Some (ramp_digest, None).
Proof.
  cbv zeta.
  assert (H : FuzzyFile 7
                (osFile.mk (123, None) (4096, None)
                   (bytes_NewReader (ramp 4096)))
              = Some (ramp_digest, None,
                      [CallSeek 0 SeekCurrent; CallSeek 0 SeekStart; CallStat;
                       CallFuzzyReader 4096; CallSeek 123 SeekStart])).
  { unfold FuzzyFile. cbn [osFile.Seek_current osFile.Stat osFile.reader].
    rewrite ramp_run. reflexivity. }
  split; [exact H|].
  exact (proj2 (proj2 (proj1 (proj2 (proj2
           (X10_FuzzyFile_restores_offset_on_success_only _ _ _ _ _ H)))
           eq_refl))).
Defined.

(** ** Strings grow by appending *)

Lemma scan_appends (data : list byte) : forall state,
  exists t1 t2 : string,
    ssdeepState.hashString1 (fold_left processByte data state)
    = (ssdeepState.hashString1 state ++ t1)%string
    /\ ssdeepState.hashString2 (fold_left processByte data state)
       = (ssdeepState.hashString2 state ++ t2)%string.
Proof.
  assert (Hnil : forall s : string, (s ++ EmptyString)%string = s)
    by (induction s as [|a s IH]; simpl; [reflexivity | now rewrite IH]).
  assert (Hassoc : forall s t u : string,
             ((s ++ t) ++ u)%string = (s ++ t ++ u)%string)
    by (induction s as [|a s IH]; intros t u; simpl;
        [reflexivity | now rewrite IH]).
  induction data as [|b data IH]; intros state.
  - exists EmptyString, EmptyString. simpl. now rewrite !Hnil.
  - cbn [fold_left].
    destruct (IH (processByte state b)) as (t1 & t2 & E1 & E2).
    rewrite E1, E2, (processByte_cases state b). cbv zeta.
    cbn [ssdeepState.hashString1 ssdeepState.hashString2].
    destruct (coarse_trigger _ && _); destruct (fine_trigger _ && _);
      rewrite ?Hassoc; eexists _, _; split; reflexivity.
Qed.

(** X11.  Within a pass the strings only grow at their end: after any
    further bytes both strings start with what they were.  So two inputs
    with a common beginning, scanned at one block size, have strings that
    both start with the strings of the common beginning. *)
Theorem X11_common_beginning :
  forall (state : ssdeepState.t) (p d1 d2 : list byte),
    let scan data := fold_left processByte data (newRollingState state) in
    exists t1 t2 u1 u2 : string,
      ssdeepState.hashString1 (scan (p ++ d1))
      = (ssdeepState.hashString1 (scan p) ++ t1)%string
      /\ ssdeepState.hashString1 (scan (p ++ d2))
         = (ssdeepState.hashString1 (scan p) ++ t2)%string
      /\ ssdeepState.hashString2 (scan (p ++ d1))
         = (ssdeepState.hashString2 (scan p) ++ u1)%string
      /\ ssdeepState.hashString2 (scan (p ++ d2))
         = (ssdeepState.hashString2 (scan p) ++ u2)%string.
Proof.
  intros state p d1 d2 scan. unfold scan. rewrite !fold_left_app.
  destruct (scan_appends d1 (fold_left processByte p (newRollingState state)))
    as (t1 & u1 & E1 & F1).
  destruct (scan_appends d2 (fold_left processByte p (newRollingState state)))
    as (t2 & u2 & E2 & F2).
  exists t1, t2, u1, u2. auto.
Qed.

(** ** Sizes for which [FuzzyReader] returns *)

(** X12.  [FuzzyReader] returns, given enough iterations, exactly for the
    declared sizes up to [3 * 2^61]; 58 iterations are enough for all of
    them. *)
Theorem X12_returns_iff_size_in_range :
  forall (f : Reader) (size : Z),
    ((exists fuel res, FuzzyReader fuel f size = Some res)
     <-> size <= maxBlockInput)
    /\ (size <= maxBlockInput -> exists res, FuzzyReader 58 f size = Some res).
Proof.
  intros f size.
  assert (Hret : size <= maxBlockInput ->
                 exists res, FuzzyReader 58 f size = Some res).
  { intros Hs. unfold FuzzyReader, getBlockSize.
    destruct (size <? minFileSize); [eexists; reflexivity|].
    destruct (getBlockSize_loop_in_range size Hs) as (k & Hk & Hrun & _).
    rewrite Hrun by lia.
    destruct (FuzzyReader_loop_terminates k f 0
                (set_blockSize newSsdeepState (blockMin * pow2 k))
                58 eq_refl ltac:(lia)) as ((res & Hres) & _).
    rewrite Hres. destruct res as [st|[d e]]; eexists; reflexivity. }
  split; [split|exact Hret].
  - intros (fuel & res & H).
    destruct (Z.le_gt_cases size maxBlockInput) as [|Hgt]; [assumption|].
    exfalso. unfold FuzzyReader in H.
    destruct (Z.ltb_spec size minFileSize) as [Hlt|_].
    + unfold minFileSize, maxBlockInput in *. lia.
    + rewrite getBlockSize_diverges in H by exact Hgt. discriminate.
  - intros Hs. destruct (Hret Hs) as (res & H). exists 58%nat, res. exact H.
Qed.

Lemma X12_returns_iff_size_in_range_witness :
  4096 <= maxBlockInput
  /\ exists res, FuzzyReader 58 (bytes_NewReader (zeros 4096)) 4096 = Some res.
Proof.
  assert (H : 4096 <= maxBlockInput) by discriminate.
  split; [exact H|].
  exact (proj2 (X12_returns_iff_size_in_range
                  (bytes_NewReader (zeros 4096)) 4096) H).
Defined.
